(** * Dynamic Quote Generator (src/unnamed/part_000): a shallow embedding

    The script keeps a module-level array [quotes], mirrors it into
    [localStorage], renders one random quote (optionally from a category
    filter), imports JSON files and merges quotes fetched from a mock server.
    We embed the functions as computations in a small state and exception
    monad over the page state. *)

From Stdlib Require Import String Ascii Bool NArith.
From stdpp Require Import base list.

Open Scope string_scope.
Open Scope list_scope.
Set Warnings "-register-all".

(** ** JavaScript values

    The values the script handles are the ones JSON.parse produces, plus
    [undefined].  A number is kept as its canonical JavaScript text
    (String(n)); JSON never produces NaN or the infinities.  Arrays and
    objects carry the reference they live at: [===] on them compares
    references.  Object properties are kept in insertion order with
    distinct keys. *)
Inductive jsval : Type :=
| JUndef
| JNull
| JBool (b : bool)
| JNum (repr : string)
| JStr (s : string)
| JArr (ref : N) (elems : list jsval)
| JObj (ref : N) (props : list (string * jsval)).

Fixpoint lookup_prop (k : string) (ps : list (string * jsval)) : option jsval :=
  match ps with
  | [] => None
  | (k', v) :: ps' => if String.eqb k k' then Some v else lookup_prop k ps'
  end.

(** [a === b] *)
Definition strict_eq (a b : jsval) : bool :=
  match a, b with
  | JUndef, JUndef => true
  | JNull, JNull => true
  | JBool x, JBool y => Bool.eqb x y
  | JNum x, JNum y => String.eqb x y && negb (String.eqb x "NaN")
  | JStr x, JStr y => String.eqb x y
  | JArr r _, JArr r' _ => N.eqb r r'
  | JObj r _, JObj r' _ => N.eqb r r'
  | _, _ => false
  end.

(** String(v), as used when a category becomes an option value. *)
Fixpoint js_to_string (v : jsval) : string :=
  match v with
  | JUndef => "undefined"
  | JNull => "null"
  | JBool true => "true"
  | JBool false => "false"
  | JNum r => r
  | JStr s => s
  | JArr _ es =>
      (fix join (es : list jsval) : string :=
         match es with
         | [] => ""
         | e :: es' =>
             let s := match e with JUndef | JNull => "" | _ => js_to_string e end in
             match es' with [] => s | _ => (s ++ "," ++ join es')%string end
         end) es
  | JObj _ _ => "[object Object]"
  end.

(** ** Page state

    What the script reads and writes outside its own locals: the [quotes]
    array, the [lastSelectedCategory] key of localStorage, the
    [#categoryFilter] select and the two form inputs (absent until they are
    created), the allocator for fresh object references, the number of
    Math.random() draws so far, and a trace of the effects it performs. *)
Record select_el := mkSelect { sel_options : list string; sel_value : string }.

Inductive display :=
| DispEmpty (msg : string)          (** the "no quotes" paragraph *)
| DispQuote (text category : jsval).

Inductive event :=
| EvSaveQuotes (snapshot : list jsval)      (** localStorage "quotes" written *)
| EvAlert (msg : string)
| EvConsoleError (msg : string)
| EvPopulateCategories (options : list string)
| EvDisplay (d : display)
| EvLastViewed (q : jsval).                 (** sessionStorage "lastViewedQuote" *)

Record state := mkState {
  quotes : list jsval;
  last_selected : option string;
  category_filter : option select_el;
  new_quote_text : option string;
  new_quote_category : option string;
  next_ref : N;
  random_draws : nat;
  trace : list event
}.

Definition set_quotes (st : state) (qs : list jsval) : state :=
  mkState qs st.(last_selected) st.(category_filter) st.(new_quote_text)
    st.(new_quote_category) st.(next_ref) st.(random_draws) st.(trace).

Definition set_filter (st : state) (s : option select_el) : state :=
  mkState st.(quotes) st.(last_selected) s st.(new_quote_text)
    st.(new_quote_category) st.(next_ref) st.(random_draws) st.(trace).

Definition set_inputs (st : state) (t c : option string) : state :=
  mkState st.(quotes) st.(last_selected) st.(category_filter) t c
    st.(next_ref) st.(random_draws) st.(trace).

Definition set_next_ref (st : state) (r : N) : state :=
  mkState st.(quotes) st.(last_selected) st.(category_filter) st.(new_quote_text)
    st.(new_quote_category) r st.(random_draws) st.(trace).

Definition set_draws (st : state) (n : nat) : state :=
  mkState st.(quotes) st.(last_selected) st.(category_filter) st.(new_quote_text)
    st.(new_quote_category) st.(next_ref) n st.(trace).

Definition add_event (st : state) (e : event) : state :=
  mkState st.(quotes) st.(last_selected) st.(category_filter) st.(new_quote_text)
    st.(new_quote_category) st.(next_ref) st.(random_draws) (st.(trace) ++ [e]).

(** ** State and exception monad *)
Inductive exn := TypeError | SyntaxError.

Inductive result (A : Type) := Ok (a : A) | Exc (e : exn).
Arguments Ok {A} a.
Arguments Exc {A} e.

Definition M (A : Type) : Type := state -> state * result A.

Definition ret {A} (a : A) : M A := fun st => (st, Ok a).
Definition throw {A} (e : exn) : M A := fun st => (st, Exc e).
Definition bind {A B} (m : M A) (k : A -> M B) : M B :=
  fun st => match m st with
            | (st', Ok a) => k a st'
            | (st', Exc e) => (st', Exc e)
            end.

(** [try { m } catch { h }] *)
Definition try_catch {A} (m : M A) (h : exn -> M A) : M A :=
  fun st => match m st with
            | (st', Exc e) => h e st'
            | r => r
            end.

Notation "'let!' x ':=' m 'in' k" := (bind m (fun x => k))
  (at level 200, x name, m at level 100, k at level 200).
Notation "m ';;;' k" := (bind m (fun _ => k)) (at level 100, right associativity).

Definition gets {A} (f : state -> A) : M A := fun st => (st, Ok (f st)).
Definition modify (f : state -> state) : M unit := fun st => (f st, Ok tt).
Definition emit (e : event) : M unit := modify (fun st => add_event st e).

(** [v.k]: reading a property of null or undefined is a TypeError; the keys
    the script reads ([text], [category], [title]) are own properties of
    objects only. *)
Definition get_prop (v : jsval) (k : string) : M jsval :=
  match v with
  | JUndef | JNull => throw TypeError
  | JObj _ ps => ret (default JUndef (lookup_prop k ps))
  | _ => ret JUndef
  end.

(** A fresh object reference. *)
Definition alloc : M N :=
  fun st => (set_next_ref st (N.succ st.(next_ref)), Ok st.(next_ref)).

(** [quotes.push(...vs)] *)
Definition push_quotes (vs : list jsval) : M unit :=
  modify (fun st => set_quotes st (st.(quotes) ++ vs)).

(** [arr.some(f)] *)
Fixpoint some_m (f : jsval -> M bool) (l : list jsval) : M bool :=
  match l with
  | [] => ret false
  | x :: l' => let! b := f x in if b then ret true else some_m f l'
  end.

(** [arr.filter(f)] *)
Fixpoint filter_m (f : jsval -> M bool) (l : list jsval) : M (list jsval) :=
  match l with
  | [] => ret []
  | x :: l' =>
      let! b := f x in
      let! r := filter_m f l' in
      ret (if b then x :: r else r)
  end.

(** [arr.map(f)] *)
Fixpoint map_m {A} (f : jsval -> M A) (l : list jsval) : M (list A) :=
  match l with
  | [] => ret []
  | x :: l' => let! y := f x in let! r := map_m f l' in ret (y :: r)
  end.

(** Strings hold the UTF-8 encoding of the JS string. [utf8_valid] tells
    whether a byte string is such an encoding (well-formed UTF-8, shortest
    forms, no surrogates). *)
Definition utf8_cont (a : ascii) : bool :=
  ((128 <=? nat_of_ascii a) && (nat_of_ascii a <=? 191))%nat.

Fixpoint utf8_valid_list (l : list ascii) : bool :=
  match l with
  | [] => true
  | a :: r =>
      let x := nat_of_ascii a in
      if (x <? 128)%nat then utf8_valid_list r
      else match r with
        | [] => false
        | b :: r2 =>
            let y := nat_of_ascii b in
            if ((194 <=? x) && (x <=? 223))%nat then utf8_cont b && utf8_valid_list r2
            else match r2 with
              | [] => false
              | c :: r3 =>
                  if ((224 <=? x) && (x <=? 239))%nat then
                    (if (x =? 224)%nat then ((160 <=? y) && (y <=? 191))%nat
                     else if (x =? 237)%nat then ((128 <=? y) && (y <=? 159))%nat
                     else utf8_cont b)
                    && utf8_cont c && utf8_valid_list r3
                  else match r3 with
                    | [] => false
                    | d :: r4 =>
                        if ((240 <=? x) && (x <=? 244))%nat then
                          (if (x =? 240)%nat then ((144 <=? y) && (y <=? 191))%nat
                           else if (x =? 244)%nat then ((128 <=? y) && (y <=? 143))%nat
                           else utf8_cont b)
                          && utf8_cont c && utf8_cont d && utf8_valid_list r4
                        else false
                    end
                end
          end
  end.

Definition utf8_valid (s : string) : bool := utf8_valid_list (list_ascii_of_string s).

(** The characters [String.prototype.trim] removes (WhiteSpace and
    LineTerminator), by the length of their UTF-8 encoding:
    U+0009..U+000D and U+0020; U+00A0; U+1680, U+2000..U+200A, U+2028,
    U+2029, U+202F, U+205F, U+3000 and U+FEFF. *)
Definition js_ws1 (a : ascii) : bool :=
  match nat_of_ascii a with
  | 9 | 10 | 11 | 12 | 13 | 32 => true
  | _ => false
  end.

Definition js_ws2 (a b : ascii) : bool :=
  ((nat_of_ascii a =? 194) && (nat_of_ascii b =? 160))%nat.

Definition js_ws3 (a b c : ascii) : bool :=
  let x := nat_of_ascii a in
  let y := nat_of_ascii b in
  let z := nat_of_ascii c in
  ((x =? 225) && (y =? 154) && (z =? 128)
   || (x =? 226) && (y =? 128)
      && ((128 <=? z) && (z <=? 138) || (z =? 168) || (z =? 169) || (z =? 175))
   || (x =? 226) && (y =? 129) && (z =? 159)
   || (x =? 227) && (y =? 128) && (z =? 128)
   || (x =? 239) && (y =? 187) && (z =? 191))%nat.

(** Drops leading characters recognised by [w1], [w2], [w3] (one, two and
    three bytes). *)
Fixpoint drop_ws (w1 : ascii -> bool) (w2 : ascii -> ascii -> bool)
    (w3 : ascii -> ascii -> ascii -> bool) (l : list ascii) : list ascii :=
  match l with
  | [] => []
  | a :: r =>
      if w1 a then drop_ws w1 w2 w3 r
      else match r with
        | [] => l
        | b :: r2 =>
            if w2 a b then drop_ws w1 w2 w3 r2
            else match r2 with
              | [] => l
              | c :: r3 => if w3 a b c then drop_ws w1 w2 w3 r3 else l
              end
        end
  end.

(** [s.trim()]: leading whitespace is dropped from the front; trailing
    whitespace from the front of the reversed bytes, where each encoding
    reads backwards. *)
Definition trim (s : string) : string :=
  let front := drop_ws js_ws1 js_ws2 js_ws3 (list_ascii_of_string s) in
  string_of_list_ascii
    (rev (drop_ws js_ws1 (fun b a => js_ws2 a b) (fun c b a => js_ws3 a b c) (rev front))).

(** SameValueZero, the equality of [new Set(...)]. *)
Definition same_value_zero (a b : jsval) : bool :=
  match a, b with
  | JNum x, JNum y => String.eqb x y
  | _, _ => strict_eq a b
  end.

(** [[...new Set(vs)]]: first occurrences, in order. *)
Fixpoint set_dedup_aux (seen : list jsval) (vs : list jsval) : list jsval :=
  match vs with
  | [] => []
  | v :: vs' =>
      if existsb (same_value_zero v) seen then set_dedup_aux seen vs'
      else v :: set_dedup_aux (seen ++ [v]) vs'
  end.

Definition set_dedup (vs : list jsval) : list jsval := set_dedup_aux [] vs.

Section Script.

(** [Math.floor(Math.random() * n)] at the [k]-th draw. *)
Variable random_floor : nat -> nat -> nat.

(** [JSON.parse]: given the first free object reference, the parsed value
    (its arrays and objects at fresh references) and the next free
    reference, or [None] for a SyntaxError. *)
Variable json_parse : N -> string -> option (jsval * N).

Definition draw_index (n : nat) : M nat :=
  fun st => (set_draws st (S st.(random_draws)), Ok (random_floor st.(random_draws) n)).

(** [saveQuotes] *)
Definition saveQuotes : M unit :=
  let! qs := gets quotes in emit (EvSaveQuotes qs).

(** [showRandomQuote(filteredQuotes)] *)
Definition showRandomQuote (filteredQuotes : list jsval) : M unit :=
  match filteredQuotes with
  | [] => emit (EvDisplay (DispEmpty "No quotes available for this category."))
  | _ =>
      let! randomIndex := draw_index (length filteredQuotes) in
      let quote := default JUndef (filteredQuotes !! randomIndex) in
      let! t := get_prop quote "text" in
      let! c := get_prop quote "category" in
      emit (EvDisplay (DispQuote t c)) ;;;
      emit (EvLastViewed quote)
  end.

(** [populateCategories]: rebuilds the options of [#categoryFilter] and
    sets its value to the last selected category; a select whose value is
    set to no option's value ends with the value "". *)
Definition populateCategories : M unit :=
  let! select := gets category_filter in
  match select with
  | None => ret tt
  | Some _ =>
      let! stored := gets last_selected in
      let lastSelected :=
        match stored with
        | Some s => if String.eqb s "" then "all" else s
        | None => "all"
        end in
      let! qs := gets quotes in
      let! cats := map_m (fun q => get_prop q "category") qs in
      let options := "all" :: map js_to_string (set_dedup cats) in
      let value := if existsb (String.eqb lastSelected) options then lastSelected else "" in
      modify (fun st => set_filter st (Some (mkSelect options value))) ;;;
      emit (EvPopulateCategories options)
  end.

(** [getFilteredQuotes] *)
Definition getFilteredQuotes : M (list jsval) :=
  let! select := gets category_filter in
  match select with
  | None => throw TypeError
  | Some sel =>
      let selectedCategory := sel.(sel_value) in
      let! qs := gets quotes in
      if String.eqb selectedCategory "all" then ret qs
      else filter_m (fun q => let! c := get_prop q "category" in
                              ret (strict_eq c (JStr selectedCategory))) qs
  end.

(** [localQuote => localQuote.text === serverQuote.text] *)
Definition same_text (serverQuote localQuote : jsval) : M bool :=
  let! a := get_prop localQuote "text" in
  let! b := get_prop serverQuote "text" in
  ret (strict_eq a b).

(** One iteration of the [forEach] of [resolveConflicts]. *)
Definition resolve_one (serverQuote : jsval) (updated : bool) : M bool :=
  let! qs := gets quotes in
  let! exists' := some_m (same_text serverQuote) qs in
  if exists' then ret updated
  else push_quotes [serverQuote] ;;; ret true.

(** [serverQuotes.forEach(...)], threading [updated]. *)
Fixpoint resolve_loop (serverQuotes : list jsval) (updated : bool) : M bool :=
  match serverQuotes with
  | [] => ret updated
  | sq :: rest => let! u := resolve_one sq updated in resolve_loop rest u
  end.

(** [resolveConflicts(serverQuotes)] *)
Definition resolveConflicts (serverQuotes : list jsval) : M unit :=
  let! updated := resolve_loop serverQuotes false in
  if updated then
    saveQuotes ;;;
    emit (EvAlert "New quotes from server have been added and conflicts resolved.") ;;;
    populateCategories ;;;
    let! f := getFilteredQuotes in showRandomQuote f
  else ret tt.

(** The [map] callback of [fetchServerQuotes]. *)
Definition server_quote (item : jsval) : M jsval :=
  let! t := get_prop item "title" in
  let! r := alloc in
  ret (JObj r [("text", t); ("category", JStr "Server")]).

(** [fetchServerQuotes], after the awaits: [response] is the parsed body, or
    [None] when the request or the body parsing failed.  [data.slice(0, 5)]
    followed by [.map] is a TypeError on anything but an array. *)
Definition fetchServerQuotes (response : option jsval) : M unit :=
  try_catch
    (match response with
     | Some (JArr _ data) =>
         let! serverQuotes := map_m server_quote (firstn 5 data) in
         resolveConflicts serverQuotes
     | _ => throw TypeError
     end)
    (fun _ => emit (EvConsoleError "Error fetching server data:")).

(** [addQuote] *)
Definition addQuote : M unit :=
  let! ti := gets new_quote_text in
  let! ci := gets new_quote_category in
  match ti, ci with
  | Some t, Some c =>
      let newQuoteText := trim t in
      let newQuoteCategory := trim c in
      if String.eqb newQuoteText "" || String.eqb newQuoteCategory "" then
        emit (EvAlert "Please enter both a quote and a category!")
      else
        let! r := alloc in
        push_quotes [JObj r [("text", JStr newQuoteText);
                             ("category", JStr newQuoteCategory)]] ;;;
        saveQuotes ;;;
        modify (fun st => set_inputs st (Some "") (Some "")) ;;;
        populateCategories ;;;
        let! f := getFilteredQuotes in showRandomQuote f
  | _, _ => throw TypeError
  end.

(** [JSON.parse(text)] *)
Definition parse_json (text : string) : M jsval :=
  fun st => match json_parse st.(next_ref) text with
            | Some (v, r) => (set_next_ref st r, Ok v)
            | None => (st, Exc SyntaxError)
            end.

(** The [onload] handler of [importFromJsonFile], on the file's text. *)
Definition importFromJsonFile (text : string) : M unit :=
  try_catch
    (let! importedQuotes := parse_json text in
     match importedQuotes with
     | JArr _ items =>
         push_quotes items ;;;
         saveQuotes ;;;
         emit (EvAlert "Quotes imported successfully!") ;;;
         populateCategories ;;;
         let! f := getFilteredQuotes in showRandomQuote f
     | _ => emit (EvAlert "Invalid JSON file format.")
     end)
    (fun _ => emit (EvAlert "Error parsing JSON file.")).

End Script.

(** ** The category choice and the first version of the script *)

Definition set_last_selected (st : state) (v : option string) : state :=
  mkState st.(quotes) v st.(category_filter) st.(new_quote_text)
    st.(new_quote_category) st.(next_ref) st.(random_draws) st.(trace).

Section Filter.

Variable random_floor : nat -> nat -> nat.

(** [filterQuotes], the [change] handler of [#categoryFilter]. *)
Definition filterQuotes : M unit :=
  let! select := gets category_filter in
  match select with
  | None => throw TypeError
  | Some sel =>
      let selectedCategory := sel.(sel_value) in
      modify (fun st => set_last_selected st (Some selectedCategory)) ;;;
      let! f := getFilteredQuotes in showRandomQuote random_floor f
  end.

End Filter.

(** The string form of [set_dedup] on string values. *)
Fixpoint dedup_strings (seen cs : list string) : list string :=
  match cs with
  | [] => []
  | c :: cs' =>
      if existsb (String.eqb c) seen then dedup_strings seen cs'
      else c :: dedup_strings (seen ++ [c]) cs'
  end.

(** src/dom-manipulation/script.js: the first version of the page, with
    its own [quotes] array, no storage, no filter and no empty check. *)
Module ScriptJs.
Section S.

Variable random_floor : nat -> nat -> nat.

(** [showRandomQuote()] *)
Definition showRandomQuote : M unit :=
  let! qs := gets quotes in
  let! randomIndex := draw_index random_floor (length qs) in
  let quote := default JUndef (qs !! randomIndex) in
  let! t := get_prop quote "text" in
  let! c := get_prop quote "category" in
  emit (EvDisplay (DispQuote t c)).

End S.

(** [addQuote()] *)
Definition addQuote : M unit :=
  let! ti := gets new_quote_text in
  let! ci := gets new_quote_category in
  match ti, ci with
  | Some t, Some c =>
      let newQuoteText := trim t in
      let newQuoteCategory := trim c in
      if String.eqb newQuoteText "" || String.eqb newQuoteCategory "" then
        emit (EvAlert "Please enter both a quote and a category!")
      else
        let! r := alloc in
        push_quotes [JObj r [("text", JStr newQuoteText);
                             ("category", JStr newQuoteCategory)]] ;;;
        modify (fun st => set_inputs st (Some "") (Some "")) ;;;
        emit (EvDisplay (DispQuote (JStr newQuoteText) (JStr newQuoteCategory)))
  | _, _ => throw TypeError
  end.

End ScriptJs.

(** ** Quote records

    A quote the script creates is an object [{ text, category }] with two
    string fields, living at some reference. *)
Record Quote := mkQuote { text : string; category : string }.

Definition quote_obj (rq : N * Quote) : jsval :=
  JObj rq.1 [("text", JStr (text rq.2)); ("category", JStr (category rq.2))].

Definition quote_key (rq : N * Quote) : string := text rq.2.

(** [v.text] of a value that is not null or undefined. *)
Definition text_of (v : jsval) : jsval :=
  match v with
  | JObj _ ps => default JUndef (lookup_prop "text" ps)
  | _ => JUndef
  end.

(** [item.title] of a value that is not null or undefined. *)
Definition title_of (v : jsval) : jsval :=
  match v with
  | JObj _ ps => default JUndef (lookup_prop "title" ps)
  | _ => JUndef
  end.

(** An object whose [text] is [===] to itself (every value but NaN is). *)
Definition candidate_record (v : jsval) : bool :=
  match v with
  | JObj _ _ => strict_eq (text_of v) (text_of v)
  | _ => false
  end.

(** The records [fetchServerQuotes] builds from [items], at consecutive
    fresh references starting at [r]. *)
Fixpoint server_records (r : N) (items : list jsval) : list jsval :=
  match items with
  | [] => []
  | i :: is => JObj r [("text", title_of i); ("category", JStr "Server")]
               :: server_records (N.succ r) is
  end.

(** The merge as spec section 4.2 words it: each candidate, in order, is
    appended when no record of the (already extended) local sequence has
    the same text; [changed] records whether anything was appended. *)
Fixpoint merge_spec {A} (key : A -> string) (local cands : list A) (changed : bool)
  : list A * bool :=
  match cands with
  | [] => (local, changed)
  | c :: cs =>
      if existsb (fun l => String.eqb (key l) (key c)) local
      then merge_spec key local cs changed
      else merge_spec key (local ++ [c]) cs true
  end.

(** The store model of [resolve_loop] on candidates that are objects:
    [scan t l] is [l.some(q => q.text === t)], [None] for a TypeError. *)
Fixpoint scan (t : jsval) (l : list jsval) : option bool :=
  match l with
  | [] => Some false
  | (JUndef | JNull) :: _ => None
  | x :: l' => if strict_eq (text_of x) t then Some true else scan t l'
  end.

Fixpoint pure_loop (cands local : list jsval) (updated : bool) : list jsval * result bool :=
  match cands with
  | [] => (local, Ok updated)
  | c :: cs =>
      match scan (text_of c) local with
      | None => (local, Exc TypeError)
      | Some true => pure_loop cs local updated
      | Some false => pure_loop cs (local ++ [c]) true
      end
  end.

Definition empty_state : state := mkState [] None None None None 0%N 0 [].

Definition qA_X : N * Quote := (0%N, mkQuote "A" "X").
Definition qA_Y : N * Quote := (1%N, mkQuote "A" "Y").
Definition qB_Z : N * Quote := (2%N, mkQuote "B" "Z").

(** A page whose filter is set to "All Categories". *)
Definition st_all : state :=
  set_filter (set_quotes empty_state [quote_obj qA_X]) (Some (mkSelect ["all"; "X"] "all")).

(** A page whose filter holds a category no quote has. *)
Definition st_other : state :=
  set_filter empty_state (Some (mkSelect ["all"; "X"] "Y")).

(** A form filled with a quote whose text has surrounding blanks. *)
Definition st_form : state := set_inputs empty_state (Some " hi ") (Some "x").

(** U+00A0 and U+3000, UTF-8 encoded. *)
Definition nbsp : string := String (ascii_of_nat 194) (String (ascii_of_nat 160) EmptyString).
Definition ideographic_space : string :=
  String (ascii_of_nat 227) (String (ascii_of_nat 128) (String (ascii_of_nat 128) EmptyString)).

(** "a" with grave accent, U+00E0, whose encoding ends in the byte 160. *)
Definition a_grave : string := String (ascii_of_nat 195) (String (ascii_of_nat 160) EmptyString).

(** A text made only of whitespace, some of it outside ASCII. *)
Definition blank_text : string := (" " ++ nbsp ++ ideographic_space)%string.

(** A form whose quote text is blank. *)
Definition st_blank : state := set_inputs empty_state (Some blank_text) (Some "x").

(** Two stored quotes, with the filter on category "X". *)
Definition st_pick_X : state :=
  set_filter (set_quotes empty_state (map quote_obj [qA_X; qB_Z]))
    (Some (mkSelect ["all"; "X"; "Z"] "X")).

(** A quote with the empty category, as an import can bring in. *)
Definition qA_empty : N * Quote := (3%N, mkQuote "C" "").

(** A stored choice "Q" that no quote has any more. *)
Definition st_stale : state :=
  set_last_selected
    (set_filter (set_quotes empty_state (map quote_obj [qA_X; qA_empty]))
       (Some (mkSelect ["all"; "Q"] "Q")))
    (Some "Q").

(** A page whose select holds the empty value. *)
Definition st_pick_empty : state :=
  set_filter (set_quotes empty_state (map quote_obj [qA_X])) (Some (mkSelect ["all"; "X"] "")).

(** A store holding [null] after a quote record. *)
Definition st_null : state :=
  set_filter (set_quotes empty_state (map quote_obj [qA_X] ++ [JNull]))
    (Some (mkSelect ["all"; "X"] "X")).

(** A parser stub that reads every text as the array [[5]]. *)
Definition parse_to_five (r : N) (_ : string) : option (jsval * N) :=
  Some (JArr r [JNum "5"], N.succ r).

Example resolve_loop_example :
  resolve_loop (map quote_obj [qA_Y; qB_Z]) false (set_quotes empty_state (map quote_obj [qA_X]))
  = (set_quotes empty_state (map quote_obj [qA_X; qB_Z]), Ok true).
Proof. reflexivity. Qed.

Example trim_example : trim "  hi there 	" = "hi there".
Proof. reflexivity. Qed.

Example trim_unicode_example :
  trim (nbsp ++ "hi" ++ ideographic_space ++ nbsp)%string = "hi".
Proof. reflexivity. Qed.

Example trim_keeps_letters_example : trim ("voil" ++ a_grave ++ " ")%string = ("voil" ++ a_grave)%string.
Proof. reflexivity. Qed.

(** * Proofs *)

(** ** Record updates *)

Lemma quotes_set_quotes st qs : quotes (set_quotes st qs) = qs.
Proof. reflexivity. Qed.

Lemma set_quotes_twice st qs qs' : set_quotes (set_quotes st qs) qs' = set_quotes st qs'.
Proof. reflexivity. Qed.

Lemma set_quotes_id st : set_quotes st (quotes st) = st.
Proof. destruct st; reflexivity. Qed.

Lemma bind_ok {A B} (m : M A) (k : A -> M B) st st' a :
  m st = (st', Ok a) -> bind m k st = k a st'.
Proof. intros E. unfold bind. rewrite E. reflexivity. Qed.

Lemma bind_exc {A B} (m : M A) (k : A -> M B) st st' e :
  m st = (st', Exc e) -> bind m k st = (st', Exc e).
Proof. intros E. unfold bind. rewrite E. reflexivity. Qed.

(** ** Computations that keep the store and only extend the trace *)

Definition frame {A} (m : M A) : Prop :=
  forall st, quotes (fst (m st)) = quotes st /\ trace st `prefix_of` trace (fst (m st)).

Lemma frame_ret {A} (a : A) : frame (ret a).
Proof. intros st; split; reflexivity. Qed.

Lemma frame_throw {A} e : frame (@throw A e).
Proof. intros st; split; reflexivity. Qed.

Lemma frame_gets {A} (f : state -> A) : frame (gets f).
Proof. intros st; split; reflexivity. Qed.

Lemma frame_emit e : frame (emit e).
Proof. intros st; split; [reflexivity|]. cbn. apply prefix_app_r; reflexivity. Qed.

Lemma frame_modify f :
  (forall st, quotes (f st) = quotes st /\ trace (f st) = trace st) -> frame (modify f).
Proof. intros Hf st. cbn. destruct (Hf st) as [-> ->]. split; reflexivity. Qed.

Lemma frame_bind {A B} (m : M A) (k : A -> M B) :
  frame m -> (forall a, frame (k a)) -> frame (bind m k).
Proof.
  intros Hm Hk st. unfold bind.
  destruct (m st) as [st' [a|e]] eqn:E; destruct (Hm st) as [Q T]; rewrite E in Q, T;
    cbn in *.
  - destruct (Hk a st') as [Q' T']. split; [congruence | etrans; eauto].
  - split; auto.
Qed.

Lemma frame_get_prop v k : frame (get_prop v k).
Proof. destruct v; cbn; auto using frame_ret, frame_throw. Qed.

Lemma frame_draw_index rf n : frame (draw_index rf n).
Proof. intros st; split; reflexivity. Qed.

Lemma frame_some_m f l : (forall x, frame (f x)) -> frame (some_m f l).
Proof.
  intros Hf. induction l as [|x l IH]; cbn; [apply frame_ret|].
  apply frame_bind; [apply Hf|]. intros []; [apply frame_ret | apply IH].
Qed.

Lemma frame_filter_m f l : (forall x, frame (f x)) -> frame (filter_m f l).
Proof.
  intros Hf. induction l as [|x l IH]; cbn; [apply frame_ret|].
  apply frame_bind; [apply Hf|]. intros b. apply frame_bind; [apply IH|].
  intros; apply frame_ret.
Qed.

Lemma frame_map_m {A} (f : jsval -> M A) l : (forall x, frame (f x)) -> frame (map_m f l).
Proof.
  intros Hf. induction l as [|x l IH]; cbn; [apply frame_ret|].
  apply frame_bind; [apply Hf|]. intros b. apply frame_bind; [apply IH|].
  intros; apply frame_ret.
Qed.

Create HintDb frame_db.
#[export] Hint Resolve frame_ret frame_throw frame_gets frame_emit frame_get_prop
  frame_draw_index : frame_db.

Ltac frame_auto :=
  repeat match goal with
  | |- frame (bind _ _) => apply frame_bind; [|intros ?]
  | |- frame (some_m _ _) => apply frame_some_m; intros ?
  | |- frame (filter_m _ _) => apply frame_filter_m; intros ?
  | |- frame (map_m _ _) => apply frame_map_m; intros ?
  | |- frame (modify _) => apply frame_modify; intros ?; split; reflexivity
  | |- frame (match ?x with _ => _ end) => destruct x
  | |- frame (if ?b then _ else _) => destruct b
  | |- frame _ => solve [eauto with frame_db]
  end.

Lemma frame_saveQuotes : frame saveQuotes.
Proof. unfold saveQuotes. frame_auto. Qed.

Lemma frame_showRandomQuote rf l : frame (showRandomQuote rf l).
Proof. unfold showRandomQuote. frame_auto. Qed.

Lemma frame_populateCategories : frame populateCategories.
Proof. unfold populateCategories. frame_auto. Qed.

Lemma frame_getFilteredQuotes : frame getFilteredQuotes.
Proof. unfold getFilteredQuotes. frame_auto. Qed.

#[export] Hint Resolve frame_saveQuotes frame_showRandomQuote frame_populateCategories
  frame_getFilteredQuotes : frame_db.

(** The part of [resolveConflicts] after the loop. *)
Lemma frame_after_merge rf :
  frame (saveQuotes ;;;
         emit (EvAlert "New quotes from server have been added and conflicts resolved.") ;;;
         populateCategories ;;;
         let! f := getFilteredQuotes in showRandomQuote rf f).
Proof. frame_auto. Qed.

(** ** The merge loop as a function of the store *)

Definition result_of_scan (o : option bool) : result bool :=
  match o with Some b => Ok b | None => Exc TypeError end.

Lemma some_m_same_text r ps l st :
  some_m (same_text (JObj r ps)) l st = (st, result_of_scan (scan (text_of (JObj r ps)) l)).
Proof.
  induction l as [|x l IH]; [reflexivity|].
  destruct x; cbn; try reflexivity;
    match goal with |- context [if ?b then _ else _] => destruct b end; auto.
Qed.

Lemma candidate_record_obj c : candidate_record c = true -> exists r ps, c = JObj r ps.
Proof. destruct c; cbn; try discriminate. eauto. Qed.

Lemma resolve_loop_pure cands u st :
  Forall (fun c => candidate_record c = true) cands ->
  resolve_loop cands u st
  = (set_quotes st (pure_loop cands (quotes st) u).1, (pure_loop cands (quotes st) u).2).
Proof.
  intros Hc. revert u st.
  induction Hc as [|c cs Hc Hcs IH]; intros u st; cbn.
  - rewrite set_quotes_id. reflexivity.
  - destruct (candidate_record_obj c Hc) as (r & ps & ->).
    unfold resolve_one, bind, gets.
    rewrite some_m_same_text.
    destruct (scan (text_of (JObj r ps)) (quotes st)) as [[|]|]; cbn.
    + apply IH.
    + rewrite IH. reflexivity.
    + rewrite set_quotes_id. reflexivity.
Qed.

Lemma scan_app t l1 l2 :
  scan t (l1 ++ l2) = match scan t l1 with Some false => scan t l2 | o => o end.
Proof.
  induction l1 as [|x l1 IH]; [reflexivity|].
  destruct x; cbn; try reflexivity;
    match goal with |- context [if ?b then _ else _] => destruct b end; auto.
Qed.

Lemma pure_loop_extends cands l u :
  exists ext, (pure_loop cands l u).1 = l ++ ext.
Proof.
  revert l u. induction cands as [|c cs IH]; intros l u; cbn.
  - exists []. by rewrite app_nil_r.
  - destruct (scan (text_of c) l) as [[|]|]; cbn.
    + apply IH.
    + destruct (IH (l ++ [c]) true) as [ext ->]. exists (c :: ext).
      by rewrite <- app_assoc.
    + exists []. by rewrite app_nil_r.
Qed.

(** Once a candidate record has been processed, the store contains a
    record with its text, reached by [some] without an exception. *)
Lemma pure_loop_idem cands l u l' u' b :
  Forall (fun c => candidate_record c = true) cands ->
  pure_loop cands l u = (l', Ok u') ->
  pure_loop cands l' b = (l', Ok b).
Proof.
  intros Hc. revert l u.
  induction Hc as [|c cs Hc Hcs IH]; intros l u Hrun; cbn in *.
  - congruence.
  - destruct (candidate_record_obj c Hc) as (r & ps & Ec).
    destruct (scan (text_of c) l) as [[|]|] eqn:Es; try discriminate.
    + destruct (pure_loop_extends cs l u) as [ext Hext].
      rewrite Hrun in Hext. cbn in Hext. subst l'.
      rewrite scan_app, Es. eapply IH. exact Hrun.
    + destruct (pure_loop_extends cs (l ++ [c]) true) as [ext Hext].
      rewrite Hrun in Hext. cbn in Hext. subst l'.
      rewrite <- app_assoc, scan_app, Es. cbn.
      assert (strict_eq (text_of c) (text_of c) = true) as Hself.
      { subst c. exact Hc. }
      subst c. cbn [scan]. rewrite Hself.
      replace (l ++ JObj r ps :: ext) with ((l ++ [JObj r ps]) ++ ext)
        by (rewrite <- app_assoc; reflexivity).
      eapply IH. exact Hrun.
Qed.

(** ** Quote records in the merge *)

Lemma text_of_quote_obj rq : text_of (quote_obj rq) = JStr (quote_key rq).
Proof. reflexivity. Qed.

Lemma candidate_record_quote_obj rq : candidate_record (quote_obj rq) = true.
Proof. cbn. apply String.eqb_refl. Qed.

Lemma Forall_candidate_quotes l :
  Forall (fun c => candidate_record c = true) (map quote_obj l).
Proof.
  induction l; constructor; auto using candidate_record_quote_obj.
Qed.

Lemma scan_quotes c l :
  scan (text_of (quote_obj c)) (map quote_obj l)
  = Some (existsb (fun x => String.eqb (quote_key x) (quote_key c)) l).
Proof.
  induction l as [|x l IH]; [reflexivity|].
  cbn [map scan]. rewrite IH. cbn.
  destruct (String.eqb _ _); reflexivity.
Qed.

Lemma pure_loop_quotes local cands u :
  pure_loop (map quote_obj cands) (map quote_obj local) u
  = (map quote_obj (merge_spec quote_key local cands u).1,
     Ok (merge_spec quote_key local cands u).2).
Proof.
  revert local u. induction cands as [|c cs IH]; intros local u; [reflexivity|].
  cbn [map pure_loop merge_spec]. rewrite scan_quotes.
  destruct (existsb _ local).
  - apply IH.
  - rewrite <- (IH (local ++ [c]) true), map_app. reflexivity.
Qed.

Lemma resolve_loop_quotes st local cands :
  resolve_loop (map quote_obj cands) false (set_quotes st (map quote_obj local))
  = (set_quotes st (map quote_obj (merge_spec quote_key local cands false).1),
     Ok (merge_spec quote_key local cands false).2).
Proof.
  rewrite resolve_loop_pure by apply Forall_candidate_quotes.
  rewrite quotes_set_quotes, pure_loop_quotes. reflexivity.
Qed.

Lemma resolveConflicts_quotes rf cands st :
  quotes (fst (resolveConflicts rf cands st)) = quotes (fst (resolve_loop cands false st)).
Proof.
  unfold resolveConflicts, bind at 1.
  destruct (resolve_loop cands false st) as [st1 [[|]|e]]; cbn; try reflexivity.
  apply frame_after_merge.
Qed.

Lemma merge_spec_NoDup {A} (key : A -> string) local cands u :
  NoDup (map key local) -> NoDup (map key (merge_spec key local cands u).1).
Proof.
  revert local u. induction cands as [|c cs IH]; intros local u Hnd; cbn; [exact Hnd|].
  destruct (existsb _ local) eqn:E; apply IH; [exact Hnd|].
  rewrite map_app. apply NoDup_app. split; [exact Hnd|]. split; [|apply NoDup_singleton].
  intros x Hx Hin. apply list_elem_of_singleton in Hin. subst x.
  apply list_elem_of_In, in_map_iff in Hx as (y & Hy & Hyin).
  assert (existsb (fun l => String.eqb (key l) (key c)) local = true) as Hex.
  { apply existsb_exists. exists y. split; [exact Hyin|]. apply String.eqb_eq. exact Hy. }
  congruence.
Qed.

Lemma NoDup_map_JStr l : NoDup l -> NoDup (map JStr l).
Proof.
  induction 1 as [|x l Hx Hnd IH]; cbn; constructor; [|exact IH].
  intros Hin. apply list_elem_of_In, in_map_iff in Hin as (y & Hy & Hyin).
  injection Hy as ->. apply Hx, list_elem_of_In, Hyin.
Qed.

(** ** Computations that only append to the store *)

Definition grows {A} (m : M A) : Prop :=
  forall st, quotes st `prefix_of` quotes (fst (m st)).

Lemma frame_grows {A} (m : M A) : frame m -> grows m.
Proof. intros Hm st. rewrite (proj1 (Hm st)). reflexivity. Qed.

Lemma grows_bind {A B} (m : M A) (k : A -> M B) :
  grows m -> (forall a, grows (k a)) -> grows (bind m k).
Proof.
  intros Hm Hk st. unfold bind. specialize (Hm st).
  destruct (m st) as [st' [a|e]]; cbn in *; [etrans; [exact Hm | apply Hk] | exact Hm].
Qed.

Lemma grows_try_catch {A} (m : M A) h :
  grows m -> (forall e, grows (h e)) -> grows (try_catch m h).
Proof.
  intros Hm Hh st. unfold try_catch. specialize (Hm st).
  destruct (m st) as [st' [a|e]]; cbn in *; [exact Hm | etrans; [exact Hm | apply Hh]].
Qed.

Lemma grows_push vs : grows (push_quotes vs).
Proof. intros st. cbn. apply prefix_app_r. reflexivity. Qed.

Lemma frame_alloc : frame alloc.
Proof. intros st; split; reflexivity. Qed.

Lemma frame_parse_json jp text : frame (parse_json jp text).
Proof. intros st. unfold parse_json. destruct (jp _ _) as [[v r]|]; split; reflexivity. Qed.

Lemma frame_server_quote item : frame (server_quote item).
Proof. unfold server_quote. frame_auto; apply frame_alloc. Qed.

Lemma frame_same_text c x : frame (same_text c x).
Proof. unfold same_text. frame_auto. Qed.

#[export] Hint Resolve frame_alloc frame_parse_json frame_server_quote frame_same_text
  : frame_db.

Create HintDb grows_db.

Ltac grows_auto :=
  repeat match goal with
  | |- grows (bind _ _) => apply grows_bind; [|intros ?]
  | |- grows (try_catch _ _) => apply grows_try_catch; [|intros ?]
  | |- grows (push_quotes _) => apply grows_push
  | |- grows (match ?x with _ => _ end) => destruct x
  | |- grows (if ?b then _ else _) => destruct b
  | |- grows _ => solve [eauto with grows_db]
  | |- grows _ => apply frame_grows; frame_auto
  end.

Lemma grows_resolve_loop cands u : grows (resolve_loop cands u).
Proof.
  revert u. induction cands as [|c cs IH]; intros u; cbn; [grows_auto|].
  apply grows_bind; [|intros; apply IH].
  unfold resolve_one. grows_auto.
Qed.

Lemma grows_resolveConflicts rf cands : grows (resolveConflicts rf cands).
Proof.
  unfold resolveConflicts. apply grows_bind; [apply grows_resolve_loop|]. intros u.
  grows_auto.
Qed.

#[export] Hint Resolve grows_resolveConflicts : grows_db.

(** ** Running a [try] block step by step *)

Lemma try_catch_bind_ok {A B} (m : M A) (k : A -> M B) h st st' a :
  m st = (st', Ok a) -> try_catch (bind m k) h st = try_catch (k a) h st'.
Proof. intros E. unfold try_catch, bind. rewrite E. reflexivity. Qed.

Lemma frame_try_catch {A} (m : M A) h :
  frame m -> (forall e, frame (h e)) -> frame (try_catch m h).
Proof.
  intros Hm Hh st. unfold try_catch. destruct (Hm st) as [Q T].
  destruct (m st) as [st' [a|e]]; cbn in *; [split; assumption|].
  destruct (Hh e st') as [Q' T']. split; [congruence | etrans; eauto].
Qed.

(** ** The fetch step *)

(** An item whose [title] can be read. *)
Definition readable (v : jsval) : Prop := v <> JNull /\ v <> JUndef.

Lemma set_next_ref_twice st a b : set_next_ref (set_next_ref st a) b = set_next_ref st b.
Proof. reflexivity. Qed.

Lemma set_next_ref_same st : set_next_ref st (next_ref st + 0) = st.
Proof. destruct st; cbn. rewrite N.add_0_r. reflexivity. Qed.

Lemma get_prop_readable v k st :
  readable v -> get_prop v k st = (st, Ok (match v with
                                            | JObj _ ps => default JUndef (lookup_prop k ps)
                                            | _ => JUndef
                                            end)).
Proof. intros [Hn Hu]. destruct v; try contradiction; reflexivity. Qed.

Lemma server_quote_readable x st :
  readable x ->
  server_quote x st
  = (set_next_ref st (N.succ (next_ref st)),
     Ok (JObj (next_ref st) [("text", title_of x); ("category", JStr "Server")])).
Proof. intros [Hn Hu]. destruct x; try contradiction; reflexivity. Qed.

Lemma map_m_server_quote_ok items st :
  Forall readable items ->
  map_m server_quote items st
  = (set_next_ref st (next_ref st + N.of_nat (length items)),
     Ok (server_records (next_ref st) items)).
Proof.
  intros Hr. revert st. induction Hr as [|x l Hx Hl IH]; intros st.
  - cbn [map_m length N.of_nat]. rewrite set_next_ref_same. reflexivity.
  - cbn [map_m]. unfold bind at 1. rewrite server_quote_readable by exact Hx.
    unfold bind. rewrite IH. cbn [next_ref set_next_ref ret].
    replace (N.succ (next_ref st) + N.of_nat (length l))%N
      with (next_ref st + N.of_nat (length (x :: l)))%N by (cbn [length]; lia).
    reflexivity.
Qed.

Lemma map_m_server_quote_error items st :
  ~ Forall readable items ->
  exists st', map_m server_quote items st = (st', Exc TypeError)
              /\ quotes st' = quotes st /\ trace st' = trace st.
Proof.
  revert st. induction items as [|x l IH]; intros st Hnr.
  - exfalso. apply Hnr. constructor.
  - destruct (match x with JNull | JUndef => true | _ => false end) eqn:Hx.
    + exists st. destruct x; try discriminate; repeat split.
    + assert (Hrx : readable x) by (destruct x; try discriminate; split; discriminate).
      assert (Hl : ~ Forall readable l) by (intros Hl; apply Hnr; constructor; auto).
      cbn [map_m]. unfold bind at 1. rewrite server_quote_readable by exact Hrx.
      destruct (IH (set_next_ref st (N.succ (next_ref st))) Hl) as (st' & E & Q & T).
      unfold bind. rewrite E. exists st'. split; [reflexivity|]. split; assumption.
Qed.

(** ** The category filter *)

Lemma filter_quotes_no_match c local st :
  Forall (fun rq => category rq.2 <> c) local ->
  filter_m (fun q => let! v := get_prop q "category" in ret (strict_eq v (JStr c)))
    (map quote_obj local) st = (st, Ok []).
Proof.
  induction 1 as [|rq l Hrq Hl IH]; [reflexivity|].
  cbn [map filter_m].
  assert (Hcb : (let! v := get_prop (quote_obj rq) "category" in
                 ret (strict_eq v (JStr c))) st = (st, Ok false)).
  { cbn. destruct (String.eqb_neq (category rq.2) c) as [_ Hne].
    rewrite (Hne Hrq). reflexivity. }
  rewrite (bind_ok _ _ _ _ _ Hcb), (bind_ok _ _ _ _ _ IH). reflexivity.
Qed.

(** * Claims *)

(** C1: [resolveConflicts] walks the candidates in order and appends each
    one exactly when no record of the store, as extended by the earlier
    appends, has the same text; [updated] ends true exactly when something
    was appended.  On quote records it computes [merge_spec], the merge as
    the spec describes it. *)
Theorem resolveConflicts_refines_merge_spec rf st local cands :
  resolve_loop (map quote_obj cands) false (set_quotes st (map quote_obj local))
  = (set_quotes st (map quote_obj (merge_spec quote_key local cands false).1),
     Ok (merge_spec quote_key local cands false).2)
  /\ quotes (fst (resolveConflicts rf (map quote_obj cands) (set_quotes st (map quote_obj local))))
     = map quote_obj (merge_spec quote_key local cands false).1.
Proof.
  split; [apply resolve_loop_quotes|].
  rewrite resolveConflicts_quotes, resolve_loop_quotes. reflexivity.
Qed.

(** C2: merging [A/Y; B/Z] into [A/X] gives [A/X; B/Z] with updated = true:
    the candidate with text A is skipped and does not touch the local
    record's category. *)
Theorem resolveConflicts_example rf st :
  resolve_loop (map quote_obj [qA_Y; qB_Z]) false (set_quotes st (map quote_obj [qA_X]))
  = (set_quotes st (map quote_obj [qA_X; qB_Z]), Ok true)
  /\ quotes (fst (resolveConflicts rf (map quote_obj [qA_Y; qB_Z])
                    (set_quotes st (map quote_obj [qA_X]))))
     = [JObj 0 [("text", JStr "A"); ("category", JStr "X")];
        JObj 2 [("text", JStr "B"); ("category", JStr "Z")]].
Proof.
  split; [reflexivity|]. rewrite resolveConflicts_quotes. reflexivity.
Qed.

(** C3: merging the same candidate records a second time into the store
    left by a first merge that completed appends nothing, reports
    updated = false, and leaves the whole page state as it was. *)
Theorem resolveConflicts_idempotent rf cands st u :
  Forall (fun c => candidate_record c = true) cands ->
  (resolve_loop cands false st).2 = Ok u ->
  let st1 := fst (resolveConflicts rf cands st) in
  resolve_loop cands false st1 = (st1, Ok false)
  /\ resolveConflicts rf cands st1 = (st1, Ok tt).
Proof.
  intros Hc Hok st1.
  assert (Hq : quotes st1 = (pure_loop cands (quotes st) false).1).
  { unfold st1. rewrite resolveConflicts_quotes, resolve_loop_pure by exact Hc. reflexivity. }
  rewrite resolve_loop_pure in Hok by exact Hc.
  cbn in Hok.
  destruct (pure_loop cands (quotes st) false) as [l' r] eqn:E. cbn in *. subst r.
  assert (Hsecond : resolve_loop cands false st1 = (st1, Ok false)).
  { rewrite resolve_loop_pure by exact Hc. rewrite Hq.
    rewrite (pure_loop_idem cands (quotes st) false l' u false Hc E).
    cbn. rewrite <- Hq, set_quotes_id. reflexivity. }
  split; [exact Hsecond|].
  unfold resolveConflicts, bind at 1. rewrite Hsecond. reflexivity.
Qed.

(** C5: merging no candidates leaves the page state exactly as it was: the
    store, localStorage, the views and the effect trace; [updated] stays
    false. *)
Theorem resolveConflicts_nil rf st :
  resolve_loop [] false st = (st, Ok false) /\ resolveConflicts rf [] st = (st, Ok tt).
Proof. split; reflexivity. Qed.

(** C10: when the store's quote records have pairwise distinct texts, so do
    the records after a merge, whatever duplicates the candidates contain. *)
Theorem resolveConflicts_keeps_texts_distinct rf st local cands :
  NoDup (map quote_key local) ->
  NoDup (map text_of (quotes (fst (resolveConflicts rf (map quote_obj cands)
                                    (set_quotes st (map quote_obj local)))))).
Proof.
  intros Hnd. rewrite resolveConflicts_quotes, resolve_loop_quotes. cbn [fst].
  rewrite quotes_set_quotes, map_map.
  erewrite map_ext by apply text_of_quote_obj. rewrite <- map_map.
  apply NoDup_map_JStr. apply merge_spec_NoDup. exact Hnd.
Qed.

(** C4: the merge of server candidates, the fetch step that feeds it, the
    user's add and the JSON import only ever append to the store: the
    store before is a prefix of the store after, whatever the input and
    also when the operation stops on an exception. *)
Theorem store_only_grows rf jp st cands response text :
  quotes st `prefix_of` quotes (fst (resolveConflicts rf cands st))
  /\ quotes st `prefix_of` quotes (fst (fetchServerQuotes rf response st))
  /\ quotes st `prefix_of` quotes (fst (addQuote rf st))
  /\ quotes st `prefix_of` quotes (fst (importFromJsonFile rf jp text st)).
Proof.
  split; [apply grows_resolveConflicts|].
  split; [|split].
  - revert st. change (grows (fetchServerQuotes rf response)).
    unfold fetchServerQuotes. grows_auto.
  - revert st. change (grows (addQuote rf)). unfold addQuote. grows_auto.
  - revert st. change (grows (importFromJsonFile rf jp text)).
    unfold importFromJsonFile. grows_auto.
Qed.

(** C6: importing a file whose text does not parse, or parses to anything
    but an array, leaves the store as it was and only shows an alert:
    "Error parsing JSON file." or "Invalid JSON file format.". *)
Theorem import_non_array_rejected rf jp text st :
  (forall r items r', jp (next_ref st) text <> Some (JArr r items, r')) ->
  let st' := fst (importFromJsonFile rf jp text st) in
  quotes st' = quotes st
  /\ trace st' = trace st ++ [EvAlert (match jp (next_ref st) text with
                                       | None => "Error parsing JSON file."
                                       | Some _ => "Invalid JSON file format."
                                       end)].
Proof.
  intros Hna st'. unfold st', importFromJsonFile, try_catch, bind, parse_json.
  destruct (jp (next_ref st) text) as [[v r]|] eqn:E.
  - destruct v; cbn; try (split; reflexivity).
    exfalso. eapply Hna. reflexivity.
  - split; reflexivity.
Qed.

(** C9: importing a file that parses to an array appends all its elements,
    in order and unchecked, to the store, saves the store and shows the
    success alert; the rest of the handler (category list, display) only
    adds to the trace. *)
Theorem import_array_appends_all rf jp text st r items r' :
  jp (next_ref st) text = Some (JArr r items, r') ->
  let st' := fst (importFromJsonFile rf jp text st) in
  quotes st' = quotes st ++ items
  /\ trace st ++ [EvSaveQuotes (quotes st ++ items); EvAlert "Quotes imported successfully!"]
     `prefix_of` trace st'.
Proof.
  intros Hp st'. unfold st', importFromJsonFile.
  erewrite try_catch_bind_ok.
  2:{ unfold parse_json. rewrite Hp. reflexivity. }
  cbv beta iota.
  erewrite try_catch_bind_ok by reflexivity.
  erewrite try_catch_bind_ok by reflexivity.
  erewrite try_catch_bind_ok by reflexivity.
  match goal with
  | |- context [try_catch ?m ?h ?s] =>
      assert (Hf : frame (try_catch m h))
        by (apply frame_try_catch; [frame_auto | intros; frame_auto]);
      destruct (Hf s) as [Q T]
  end.
  cbn in Q, T |- *. rewrite Q. split; [reflexivity|].
  etrans; [|exact T]. rewrite <- app_assoc. reflexivity.
Qed.

(** C7 (as the code has it): for a response array whose first five items
    are neither null nor undefined, the fetch step builds one record
    [{ text: item.title, category: "Server" }] per item (at most five, at
    fresh references) and hands exactly that sequence to the merge; when one
    of them is null, reading its [title] throws, the error is logged, and
    nothing is merged. *)
Theorem fetch_maps_first_five rf r items st :
  (Forall readable (firstn 5 items) ->
   fetchServerQuotes rf (Some (JArr r items)) st
   = try_catch (resolveConflicts rf (server_records (next_ref st) (firstn 5 items)))
       (fun _ => emit (EvConsoleError "Error fetching server data:"))
       (set_next_ref st (next_ref st + N.of_nat (length (firstn 5 items)))))
  /\ (~ Forall readable (firstn 5 items) ->
      let st' := fst (fetchServerQuotes rf (Some (JArr r items)) st) in
      quotes st' = quotes st
      /\ trace st' = trace st ++ [EvConsoleError "Error fetching server data:"]).
Proof.
  split.
  - intros Hr. unfold fetchServerQuotes.
    erewrite try_catch_bind_ok by (apply map_m_server_quote_ok; exact Hr).
    reflexivity.
  - intros Hnr st'. destruct (map_m_server_quote_error _ st Hnr) as (st1 & E & Q & T).
    assert (Hf : fetchServerQuotes rf (Some (JArr r items)) st
                 = (add_event st1 (EvConsoleError "Error fetching server data:"), Ok tt)).
    { unfold fetchServerQuotes, try_catch. rewrite (bind_exc _ _ _ _ _ E). reflexivity. }
    unfold st'. rewrite Hf. cbn. rewrite T. split; [exact Q | reflexivity].
Qed.

(** C7, against the claim as stated: with the response [[null]] the fetch
    step logs an error and leaves the page state otherwise untouched, while
    handing any one-element sequence to the merge on the empty store would
    have appended it. *)
Lemma fetch_null_item_merges_nothing :
  fetchServerQuotes (fun _ _ => 0) (Some (JArr 0 [JNull])) empty_state
  = (add_event empty_state (EvConsoleError "Error fetching server data:"), Ok tt)
  /\ (forall sq st', length sq = 1 -> quotes st' = [] ->
        quotes (fst (resolveConflicts (fun _ _ => 0) sq st')) = sq).
Proof.
  split; [reflexivity|].
  intros [|x [|y sq]] st' Hl Hq; try discriminate.
  rewrite resolveConflicts_quotes.
  unfold resolve_loop, resolve_one, bind, gets. rewrite Hq. cbn. rewrite Hq. reflexivity.
Qed.

(** C8 (as the code has it): for every store of quote records, when the
    select holds a category other than "all" that no record has, the filter
    yields the empty list and the display shows the "no quotes" message;
    when it holds "all", the filter yields the whole store. *)
Theorem filter_empty_category_shows_message rf st sel local :
  category_filter st = Some sel ->
  let st0 := set_quotes st (map quote_obj local) in
  (sel_value sel <> "all" ->
   Forall (fun rq => category rq.2 <> sel_value sel) local ->
   getFilteredQuotes st0 = (st0, Ok [])
   /\ (let! f := getFilteredQuotes in showRandomQuote rf f) st0
      = (add_event st0 (EvDisplay (DispEmpty "No quotes available for this category.")), Ok tt))
  /\ (sel_value sel = "all" -> getFilteredQuotes st0 = (st0, Ok (map quote_obj local))).
Proof.
  intros Hsel st0. split.
  - intros Hall Hnone.
    assert (Hg : getFilteredQuotes st0 = (st0, Ok [])).
    { unfold getFilteredQuotes, bind at 1, gets.
      replace (category_filter st0) with (Some sel) by (symmetry; exact Hsel).
      unfold bind at 1, gets.
      destruct (String.eqb_neq (sel_value sel) "all") as [_ Hne]. rewrite (Hne Hall).
      apply filter_quotes_no_match. exact Hnone. }
    split; [exact Hg|]. unfold bind at 1. rewrite Hg. reflexivity.
  - intros Hall. unfold getFilteredQuotes, bind at 1, gets.
    replace (category_filter st0) with (Some sel) by (symmetry; exact Hsel).
    unfold bind at 1, gets. rewrite Hall. reflexivity.
Qed.

(** C8, against the claim as stated: no quote has the category "all", yet
    with "all" selected the filter yields the whole store and a quote is
    displayed. *)
Lemma filter_all_is_not_empty :
  Forall (fun rq => category rq.2 <> "all") [qA_X]
  /\ getFilteredQuotes st_all = (st_all, Ok [quote_obj qA_X])
  /\ trace (fst ((let! f := getFilteredQuotes in showRandomQuote (fun _ _ => 0) f) st_all))
     = [EvDisplay (DispQuote (JStr "A") (JStr "X")); EvLastViewed (quote_obj qA_X)].
Proof.
  split; [repeat constructor; cbn; discriminate|].
  split; reflexivity.
Qed.

(** * Witnesses *)

Lemma resolveConflicts_idempotent_witness :
  Forall (fun c => candidate_record c = true) (map quote_obj [qA_Y; qB_Z])
  /\ (resolve_loop (map quote_obj [qA_Y; qB_Z]) false
        (set_quotes empty_state (map quote_obj [qA_X]))).2 = Ok true
  /\ (let st1 := fst (resolveConflicts (fun _ _ => 0) (map quote_obj [qA_Y; qB_Z])
                        (set_quotes empty_state (map quote_obj [qA_X]))) in
      resolve_loop (map quote_obj [qA_Y; qB_Z]) false st1 = (st1, Ok false)
      /\ resolveConflicts (fun _ _ => 0) (map quote_obj [qA_Y; qB_Z]) st1 = (st1, Ok tt)).
Proof.
  split; [repeat constructor|]. split; [reflexivity|].
  apply (resolveConflicts_idempotent (fun _ _ => 0) _ _ true); [repeat constructor | reflexivity].
Defined.

Lemma resolveConflicts_keeps_texts_distinct_witness :
  NoDup (map quote_key [qA_X])
  /\ NoDup (map text_of (quotes (fst (resolveConflicts (fun _ _ => 0) (map quote_obj [qA_Y; qB_Z])
                                       (set_quotes empty_state (map quote_obj [qA_X])))))).
Proof.
  split; [cbn; apply NoDup_singleton|].
  apply resolveConflicts_keeps_texts_distinct. cbn. apply NoDup_singleton.
Defined.

Lemma import_non_array_rejected_witness :
  (forall r items r', (fun (_ : N) (_ : string) => @None (jsval * N)) (next_ref empty_state) "x"
                      <> Some (JArr r items, r'))
  /\ quotes (fst (importFromJsonFile (fun _ _ => 0) (fun _ _ => None) "x" empty_state))
     = quotes empty_state
  /\ trace (fst (importFromJsonFile (fun _ _ => 0) (fun _ _ => None) "x" empty_state))
     = trace empty_state ++ [EvAlert "Error parsing JSON file."].
Proof.
  split; [intros r items r'; discriminate|].
  apply (import_non_array_rejected (fun _ _ => 0) (fun _ _ => None) "x" empty_state).
  intros r items r'; discriminate.
Defined.

Lemma import_array_appends_all_witness :
  parse_to_five (next_ref empty_state) "[5]" = Some (JArr 0 [JNum "5"], 1%N)
  /\ quotes (fst (importFromJsonFile (fun _ _ => 0) parse_to_five "[5]" empty_state))
     = quotes empty_state ++ [JNum "5"]
  /\ trace empty_state ++ [EvSaveQuotes (quotes empty_state ++ [JNum "5"]);
                           EvAlert "Quotes imported successfully!"]
     `prefix_of` trace (fst (importFromJsonFile (fun _ _ => 0) parse_to_five "[5]" empty_state)).
Proof.
  split; [reflexivity|].
  apply (import_array_appends_all (fun _ _ => 0) parse_to_five "[5]" empty_state 0 [JNum "5"] 1%N).
  reflexivity.
Defined.

Lemma fetch_maps_first_five_witness :
  Forall readable (firstn 5 [JObj 7 [("title", JStr "T")]])
  /\ fetchServerQuotes (fun _ _ => 0) (Some (JArr 0 [JObj 7 [("title", JStr "T")]])) empty_state
     = try_catch (resolveConflicts (fun _ _ => 0)
                    (server_records (next_ref empty_state) (firstn 5 [JObj 7 [("title", JStr "T")]])))
         (fun _ => emit (EvConsoleError "Error fetching server data:"))
         (set_next_ref empty_state
            (next_ref empty_state + N.of_nat (length (firstn 5 [JObj 7 [("title", JStr "T")]]))))
  /\ ~ Forall readable (firstn 5 [JNull])
  /\ quotes (fst (fetchServerQuotes (fun _ _ => 0) (Some (JArr 0 [JNull])) empty_state))
     = quotes empty_state.
Proof.
  assert (Hr : Forall readable (firstn 5 [JObj 7 [("title", JStr "T")]])).
  { cbn. constructor; [split; discriminate | constructor]. }
  assert (Hn : ~ Forall readable (firstn 5 [JNull])).
  { cbn. intros H. inversion H as [|x l [Hx _]]. apply Hx. reflexivity. }
  split; [exact Hr|]. split; [exact (proj1 (fetch_maps_first_five (fun _ _ => 0) 0 _ empty_state) Hr)|].
  split; [exact Hn|].
  exact (proj1 (proj2 (fetch_maps_first_five (fun _ _ => 0) 0 [JNull] empty_state) Hn)).
Defined.

Lemma filter_empty_category_shows_message_witness :
  (category_filter st_other = Some (mkSelect ["all"; "X"] "Y")
   /\ sel_value (mkSelect ["all"; "X"] "Y") <> "all"
   /\ Forall (fun rq => category rq.2 <> sel_value (mkSelect ["all"; "X"] "Y")) [qA_X]
   /\ getFilteredQuotes (set_quotes st_other (map quote_obj [qA_X]))
      = (set_quotes st_other (map quote_obj [qA_X]), Ok []))
  /\ (category_filter st_all = Some (mkSelect ["all"; "X"] "all")
      /\ sel_value (mkSelect ["all"; "X"] "all") = "all"
      /\ getFilteredQuotes (set_quotes st_all (map quote_obj [qA_X]))
         = (set_quotes st_all (map quote_obj [qA_X]), Ok (map quote_obj [qA_X]))).
Proof.
  assert (H1 : category_filter st_other = Some (mkSelect ["all"; "X"] "Y")) by reflexivity.
  assert (H2 : sel_value (mkSelect ["all"; "X"] "Y") <> "all") by (cbn; discriminate).
  assert (H3 : Forall (fun rq => category rq.2 <> sel_value (mkSelect ["all"; "X"] "Y")) [qA_X])
    by (repeat constructor; cbn; discriminate).
  assert (A1 : category_filter st_all = Some (mkSelect ["all"; "X"] "all")) by reflexivity.
  assert (A2 : sel_value (mkSelect ["all"; "X"] "all") = "all") by reflexivity.
  destruct (filter_empty_category_shows_message (fun _ _ => 0) st_other _ [qA_X] H1) as [E _].
  destruct (filter_empty_category_shows_message (fun _ _ => 0) st_all _ [qA_X] A1) as [_ W].
  exact (conj (conj H1 (conj H2 (conj H3 (proj1 (E H2 H3))))) (conj A1 (conj A2 (W A2)))).
Defined.

(** * Further properties of the code *)

(** ** Adding a quote *)

(** X1: for inputs that encode JS strings (well-formed UTF-8) and whose
    trimmed forms are both non-empty, [addQuote] appends exactly one record
    holding the trimmed text and category, at a fresh reference, and saves
    the store with that record before anything else can fail. *)
Theorem addQuote_appends_trimmed rf st t c :
  new_quote_text st = Some t -> new_quote_category st = Some c ->
  utf8_valid t = true -> utf8_valid c = true ->
  trim t <> "" -> trim c <> "" ->
  let q := JObj (next_ref st) [("text", JStr (trim t)); ("category", JStr (trim c))] in
  let st' := fst (addQuote rf st) in
  quotes st' = quotes st ++ [q]
  /\ trace st ++ [EvSaveQuotes (quotes st ++ [q])] `prefix_of` trace st'.
Proof.
  intros Ht Hc _ _ Hnt Hnc q st'. unfold st', addQuote.
  erewrite bind_ok by reflexivity. erewrite bind_ok by reflexivity.
  cbv beta. rewrite Ht, Hc.
  destruct (String.eqb_neq (trim t) "") as [_ Et]. rewrite (Et Hnt).
  destruct (String.eqb_neq (trim c) "") as [_ Ec]. rewrite (Ec Hnc). cbn [orb].
  do 4 (erewrite bind_ok by reflexivity).
  match goal with
  | |- context [bind populateCategories ?k ?s] =>
      assert (Hf : frame (bind populateCategories k)) by frame_auto;
      destruct (Hf s) as [Q T]
  end.
  rewrite Q. split; [reflexivity|]. etrans; [|exact T]. cbn. reflexivity.
Qed.

(** X2: when the trimmed text or category is empty (also when it held only
    non-ASCII whitespace such as U+00A0), [addQuote] only shows its alert:
    the store, storage and views stay as they were. *)
Theorem addQuote_blank_rejected rf st t c :
  new_quote_text st = Some t -> new_quote_category st = Some c ->
  trim t = "" \/ trim c = "" ->
  addQuote rf st = (add_event st (EvAlert "Please enter both a quote and a category!"), Ok tt).
Proof.
  intros Ht Hc Hblank. unfold addQuote.
  erewrite bind_ok by reflexivity. erewrite bind_ok by reflexivity.
  cbv beta. rewrite Ht, Hc.
  destruct Hblank as [-> | ->]; cbn [String.eqb orb]; [reflexivity|].
  rewrite orb_true_r. reflexivity.
Qed.

(** ** Fetch failures *)

(** X3: when the request fails or the response is not an array, the fetch
    step only logs "Error fetching server data:"; nothing is merged. *)
Theorem fetch_non_array_only_logs rf response st :
  (forall r data, response <> Some (JArr r data)) ->
  fetchServerQuotes rf response st
  = (add_event st (EvConsoleError "Error fetching server data:"), Ok tt).
Proof.
  intros Hna. destruct response as [[]|]; try reflexivity.
  exfalso. eapply Hna. reflexivity.
Qed.

(** ** Effects of a merge *)

Lemma merge_spec_known {A} (key : A -> string) local cands u :
  Forall (fun c => existsb (fun l => String.eqb (key l) (key c)) local = true) cands ->
  merge_spec key local cands u = (local, u).
Proof.
  induction 1 as [|c cs Hc Hcs IH]; [reflexivity|]. cbn. rewrite Hc. exact IH.
Qed.

(** X4: when every candidate's text is already in the store, the merge
    changes nothing at all: no append, no save, no alert, no re-render. *)
Theorem resolveConflicts_known_texts_noop rf st local cands :
  Forall (fun c => existsb (fun l => String.eqb (quote_key l) (quote_key c)) local = true) cands ->
  resolveConflicts rf (map quote_obj cands) (set_quotes st (map quote_obj local))
  = (set_quotes st (map quote_obj local), Ok tt).
Proof.
  intros Hk. unfold resolveConflicts.
  rewrite (bind_ok _ _ _ _ _ (resolve_loop_quotes st local cands)).
  rewrite (merge_spec_known quote_key local cands false Hk). reflexivity.
Qed.

(** X5: when the merge appends something, the store it leaves is saved to
    localStorage, then the "New quotes from server" alert is shown. *)
Theorem resolveConflicts_saves_merged rf st local cands :
  (merge_spec quote_key local cands false).2 = true ->
  let merged := map quote_obj (merge_spec quote_key local cands false).1 in
  let st' := fst (resolveConflicts rf (map quote_obj cands) (set_quotes st (map quote_obj local))) in
  quotes st' = merged
  /\ trace st ++ [EvSaveQuotes merged;
                  EvAlert "New quotes from server have been added and conflicts resolved."]
     `prefix_of` trace st'.
Proof.
  intros Hch merged st'. unfold st', resolveConflicts.
  rewrite (bind_ok _ _ _ _ _ (resolve_loop_quotes st local cands)), Hch.
  do 2 (erewrite bind_ok by reflexivity).
  match goal with
  | |- context [bind populateCategories ?k ?s] =>
      assert (Hf : frame (bind populateCategories k)) by frame_auto;
      destruct (Hf s) as [Q T]
  end.
  rewrite Q. split; [reflexivity|]. etrans; [|exact T]. cbn. rewrite <- app_assoc. reflexivity.
Qed.

(** ** The first version of the script (script.js) *)

(** X6: the first version has no empty check: on an empty store
    [showRandomQuote] reads [undefined.text] and throws a TypeError after
    drawing a random number, displaying nothing. *)
Theorem ScriptJs_showRandomQuote_empty_throws rf st :
  quotes st = [] ->
  ScriptJs.showRandomQuote rf st = (set_draws st (S (random_draws st)), Exc TypeError).
Proof.
  intros Hq. unfold ScriptJs.showRandomQuote.
  erewrite bind_ok by reflexivity. rewrite Hq. reflexivity.
Qed.

(** X7: for inputs that encode JS strings (well-formed UTF-8) and whose
    trimmed forms are both non-empty, the first version's [addQuote]
    appends the trimmed record, clears the inputs and displays the new
    quote directly; it writes no storage. *)
Theorem ScriptJs_addQuote_appends_and_shows st t c :
  new_quote_text st = Some t -> new_quote_category st = Some c ->
  utf8_valid t = true -> utf8_valid c = true ->
  trim t <> "" -> trim c <> "" ->
  ScriptJs.addQuote st
  = (add_event
       (set_inputs
          (set_quotes (set_next_ref st (N.succ (next_ref st)))
             (quotes st ++ [JObj (next_ref st) [("text", JStr (trim t));
                                               ("category", JStr (trim c))]]))
          (Some "") (Some ""))
       (EvDisplay (DispQuote (JStr (trim t)) (JStr (trim c)))), Ok tt).
Proof.
  intros Ht Hc _ _ Hnt Hnc. unfold ScriptJs.addQuote.
  erewrite bind_ok by reflexivity. erewrite bind_ok by reflexivity.
  cbv beta. rewrite Ht, Hc.
  destruct (String.eqb_neq (trim t) "") as [_ Et]. rewrite (Et Hnt).
  destruct (String.eqb_neq (trim c) "") as [_ Ec]. rewrite (Ec Hnc). reflexivity.
Qed.

(** ** Filter, dropdown and render on a store of quote records *)

Lemma filter_quotes_m c local st :
  filter_m (fun q => let! v := get_prop q "category" in ret (strict_eq v (JStr c)))
    (map quote_obj local) st
  = (st, Ok (map quote_obj (List.filter (fun rq => String.eqb (category rq.2) c) local))).
Proof.
  induction local as [|rq l IH]; [reflexivity|].
  cbn [map filter_m].
  assert (Hcb : (let! v := get_prop (quote_obj rq) "category" in
                 ret (strict_eq v (JStr c))) st = (st, Ok (String.eqb (category rq.2) c)))
    by reflexivity.
  rewrite (bind_ok _ _ _ _ _ Hcb), (bind_ok _ _ _ _ _ IH). cbn.
  destruct (String.eqb (category rq.2) c); reflexivity.
Qed.

Lemma getFilteredQuotes_on_quotes st sel local :
  category_filter st = Some sel -> quotes st = map quote_obj local ->
  getFilteredQuotes st
  = (st, Ok (if String.eqb (sel_value sel) "all" then map quote_obj local
             else map quote_obj (List.filter (fun rq => String.eqb (category rq.2) (sel_value sel))
                                   local))).
Proof.
  intros Hs Hq. unfold getFilteredQuotes.
  erewrite bind_ok by reflexivity. rewrite Hs.
  erewrite bind_ok by reflexivity. rewrite Hq.
  destruct (String.eqb (sel_value sel) "all"); [reflexivity|].
  apply filter_quotes_m.
Qed.

Lemma lookup_map_quote (l : list (N * Quote)) i rq :
  l !! i = Some rq -> map quote_obj l !! i = Some (quote_obj rq).
Proof.
  revert i. induction l as [|x l IH]; intros [|i] H; cbn in *; try discriminate.
  - congruence.
  - apply IH, H.
Qed.

Lemma map_m_category_quotes local st :
  map_m (fun q => get_prop q "category") (map quote_obj local) st
  = (st, Ok (map (fun rq => JStr (category rq.2)) local)).
Proof.
  induction local as [|rq l IH]; [reflexivity|].
  cbn [map map_m]. erewrite bind_ok by reflexivity. rewrite (bind_ok _ _ _ _ _ IH).
  reflexivity.
Qed.

Lemma existsb_svz_strings c seen :
  existsb (same_value_zero (JStr c)) (map JStr seen) = existsb (String.eqb c) seen.
Proof. induction seen as [|s seen IH]; cbn; [reflexivity|]. rewrite IH. reflexivity. Qed.

Lemma set_dedup_strings seen cs :
  set_dedup_aux (map JStr seen) (map JStr cs) = map JStr (dedup_strings seen cs).
Proof.
  revert seen. induction cs as [|c cs IH]; intros seen; [reflexivity|].
  cbn [map set_dedup_aux dedup_strings]. rewrite existsb_svz_strings.
  destruct (existsb (String.eqb c) seen); [apply IH|].
  cbn. f_equal. rewrite <- IH, map_app. reflexivity.
Qed.

Lemma js_to_string_strings l : map js_to_string (map JStr l) = l.
Proof. induction l as [|x l IH]; cbn; [reflexivity|]. rewrite IH. reflexivity. Qed.

Lemma existsb_eqb_elem c (l : list string) : existsb (String.eqb c) l = true <-> c ∈ l.
Proof.
  rewrite existsb_exists, list_elem_of_In. split.
  - intros (x & Hx & E). apply String.eqb_eq in E. subst. exact Hx.
  - intros Hc. exists c. split; [exact Hc | apply String.eqb_refl].
Qed.

Lemma dedup_strings_elem seen cs x :
  x ∈ dedup_strings seen cs <-> x ∈ cs /\ x ∉ seen.
Proof.
  revert seen. induction cs as [|c cs IH]; intros seen; cbn.
  - split; [intros H; inversion H | intros [H _]; inversion H].
  - destruct (existsb (String.eqb c) seen) eqn:E.
    + apply existsb_eqb_elem in E. rewrite IH, elem_of_cons.
      split; [tauto|]. intros [[-> | Hx] Hn]; [contradiction | tauto].
    + rewrite elem_of_cons, IH, elem_of_cons, elem_of_app, list_elem_of_singleton.
      assert (c ∉ seen) by (intros Hc; apply existsb_eqb_elem in Hc; congruence).
      split.
      * intros [-> | [Hx Hn]]; [tauto|]. split; [tauto|]. tauto.
      * intros [[-> | Hx] Hn]; [tauto|].
        destruct (String.eqb_spec x c) as [-> | Hne]; [tauto|]. right. tauto.
Qed.

Lemma dedup_strings_NoDup seen cs : NoDup (dedup_strings seen cs).
Proof.
  revert seen. induction cs as [|c cs IH]; intros seen; cbn; [constructor|].
  destruct (existsb (String.eqb c) seen); [apply IH|].
  constructor; [|apply IH].
  rewrite dedup_strings_elem, elem_of_app, list_elem_of_singleton. tauto.
Qed.

Lemma populateCategories_on_quotes st sel local :
  category_filter st = Some sel -> quotes st = map quote_obj local ->
  let ls := match last_selected st with
            | Some s => if String.eqb s "" then "all" else s
            | None => "all"
            end in
  let opts := "all" :: dedup_strings [] (map (fun rq => category rq.2) local) in
  populateCategories st
  = (add_event (set_filter st (Some (mkSelect opts (if existsb (String.eqb ls) opts then ls else ""))))
       (EvPopulateCategories opts), Ok tt).
Proof.
  intros Hs Hq ls opts. unfold populateCategories.
  erewrite bind_ok by reflexivity. rewrite Hs.
  do 2 (erewrite bind_ok by reflexivity). rewrite Hq.
  rewrite (bind_ok _ _ _ _ _ (map_m_category_quotes local st)).
  unfold set_dedup.
  replace (map (fun rq => JStr (category rq.2)) local)
    with (map JStr (map (fun rq => category rq.2) local)) by (rewrite map_map; reflexivity).
  rewrite (set_dedup_strings [] _), js_to_string_strings. reflexivity.
Qed.

Lemma stateless_getFilteredQuotes st : fst (getFilteredQuotes st) = st.
Proof.
  unfold getFilteredQuotes. erewrite bind_ok by reflexivity.
  destruct (category_filter st) as [sel|]; [|reflexivity].
  erewrite bind_ok by reflexivity.
  destruct (String.eqb _ _); [reflexivity|].
  generalize (quotes st) as l. intros l. induction l as [|x l IH]; [reflexivity|].
  cbn [filter_m]. unfold bind at 1.
  destruct x; cbn; try reflexivity; unfold bind in IH |- *;
    destruct (filter_m _ l st) as [st1 r]; cbn in IH; subst; destruct r; reflexivity.
Qed.

Lemma showRandomQuote_keeps {B} (p : state -> B) rf l st :
  (forall st e, p (add_event st e) = p st) -> (forall st n, p (set_draws st n) = p st) ->
  p (fst (showRandomQuote rf l st)) = p st.
Proof.
  intros Hev Hdr. unfold showRandomQuote. destruct l as [|x l]; [apply Hev|].
  erewrite bind_ok by reflexivity.
  destruct (default JUndef _) eqn:E; cbn; rewrite ?Hev, ?Hev, Hdr; reflexivity.
Qed.

Lemma filter_quotes_null c pre post st :
  filter_m (fun q => let! v := get_prop q "category" in ret (strict_eq v (JStr c)))
    (map quote_obj pre ++ JNull :: post) st = (st, Exc TypeError).
Proof.
  induction pre as [|rq l IH]; [reflexivity|].
  cbn [map app filter_m]. erewrite bind_ok by reflexivity.
  unfold bind at 1. rewrite IH. reflexivity.
Qed.

Lemma map_m_category_null pre post st :
  map_m (fun q => get_prop q "category") (map quote_obj pre ++ JNull :: post) st
  = (st, Exc TypeError).
Proof.
  induction pre as [|rq l IH]; [reflexivity|].
  cbn [map app map_m]. erewrite bind_ok by reflexivity.
  unfold bind at 1. rewrite IH. reflexivity.
Qed.

Lemma sublist_List_filter {A} (f : A -> bool) l : List.filter f l `sublist_of` l.
Proof.
  induction l as [|x l IH]; cbn; [constructor|].
  destruct (f x); constructor; exact IH.
Qed.

Lemma elem_of_List_filter {A} (f : A -> bool) l x :
  x ∈ List.filter f l <-> x ∈ l /\ f x = true.
Proof. rewrite !list_elem_of_In. apply filter_In. Qed.

Lemma elem_of_map_iff {A B} (f : A -> B) l x :
  x ∈ map f l <-> exists y, x = f y /\ y ∈ l.
Proof.
  rewrite list_elem_of_In, in_map_iff. split.
  - intros [y [<- Hy]]. exists y. split; [reflexivity | apply list_elem_of_In, Hy].
  - intros [y [-> Hy]]. exists y. split; [reflexivity | apply list_elem_of_In, Hy].
Qed.

Lemma filterQuotes_keeps {B} (p : state -> B) rf st sel :
  category_filter st = Some sel ->
  (forall s e, p (add_event s e) = p s) -> (forall s n, p (set_draws s n) = p s) ->
  p (fst (filterQuotes rf st)) = p (set_last_selected st (Some (sel_value sel))).
Proof.
  intros Hs Hev Hdr. unfold filterQuotes.
  erewrite bind_ok by reflexivity. rewrite Hs.
  erewrite bind_ok by reflexivity.
  set (st0 := set_last_selected st (Some (sel_value sel))).
  pose proof (stateless_getFilteredQuotes st0) as E0.
  unfold bind. destruct (getFilteredQuotes st0) as [s1 [f|e]]; cbn in E0 |- *; subst s1.
  - apply showRandomQuote_keeps; assumption.
  - reflexivity.
Qed.

(** * Further properties of the code (continued) *)

(** X8: getFilteredQuotes on a store of quote records leaves the state as it is
    and returns, in store order, exactly the records whose category is the
    selected value, or every record when the value is ["all"]. *)
Theorem getFilteredQuotes_selects_category st sel local :
  category_filter st = Some sel -> quotes st = map quote_obj local ->
  exists sub, getFilteredQuotes st = (st, Ok (map quote_obj sub))
    /\ sub `sublist_of` local
    /\ forall rq, rq ∈ sub <-> rq ∈ local /\ (sel_value sel = "all" \/ category rq.2 = sel_value sel).
Proof.
  intros Hs Hq. rewrite (getFilteredQuotes_on_quotes st sel local Hs Hq).
  destruct (String.eqb_spec (sel_value sel) "all") as [Ha | Ha].
  - exists local. split; [reflexivity|]. split; [reflexivity|]. intros rq. tauto.
  - eexists. split; [reflexivity|]. split; [apply sublist_List_filter|].
    intros rq. rewrite elem_of_List_filter, String.eqb_eq. tauto.
Qed.

(** X9: showRandomQuote on a non-empty list of quote records, with the draw
    [Math.floor(Math.random() * length)] in range, displays the text and
    category of the drawn record and then records that same record as the
    last viewed quote; nothing else of the state changes except the draw
    counter. *)
Theorem showRandomQuote_displays_drawn rf st (l : list (N * Quote)) :
  rf (random_draws st) (length l) < length l ->
  exists rq, l !! rf (random_draws st) (length l) = Some rq
    /\ showRandomQuote rf (map quote_obj l) st
       = (add_event (add_event (set_draws st (S (random_draws st)))
                      (EvDisplay (DispQuote (JStr (text rq.2)) (JStr (category rq.2)))))
            (EvLastViewed (quote_obj rq)), Ok tt).
Proof.
  intros Hlt. destruct (lookup_lt_is_Some_2 l _ Hlt) as [rq Hrq].
  exists rq. split; [exact Hrq|].
  destruct l as [|x l']; [cbn in Hlt; lia|].
  unfold showRandomQuote. cbn [map].
  erewrite bind_ok by reflexivity.
  change (quote_obj x :: map quote_obj l') with (map quote_obj (x :: l')).
  rewrite length_map.
  rewrite (lookup_map_quote _ _ _ Hrq). destruct rq as [r [t c]]. reflexivity.
Qed.

(** X10: populateCategories on a store of quote records, with the select present,
    offers ["all"] followed by every category of the store exactly once, and
    leaves the store unchanged. *)
Theorem populateCategories_lists_each_category_once st sel local :
  category_filter st = Some sel -> quotes st = map quote_obj local ->
  let st1 := fst (populateCategories st) in
  quotes st1 = quotes st
  /\ exists cats sel', category_filter st1 = Some sel'
     /\ sel_options sel' = "all" :: cats
     /\ NoDup cats
     /\ forall c, c ∈ cats <-> exists rq, rq ∈ local /\ category rq.2 = c.
Proof.
  intros Hs Hq st1. subst st1.
  rewrite (populateCategories_on_quotes st sel local Hs Hq). cbn.
  split; [reflexivity|].
  eexists _, _. split; [reflexivity|]. split; [reflexivity|].
  split; [apply dedup_strings_NoDup|].
  intros c. rewrite dedup_strings_elem, elem_of_map_iff.
  split.
  - intros [Hc _]. destruct Hc as [rq [-> Hrq]]. exists rq. auto.
  - intros [rq [Hrq <-]]. split; [exists rq; auto|]. intros Hn; inversion Hn.
Qed.

(** X11: A stored category choice that is neither empty nor ["all"] and that no
    record of the store carries any more is not among the rebuilt options:
    populateCategories sets the select's value to [""], and the next
    filtering yields exactly the records whose category is [""] (none in a
    store without such records). *)
Theorem populateCategories_stale_choice_selects_nothing st sel local c :
  category_filter st = Some sel -> quotes st = map quote_obj local ->
  last_selected st = Some c -> c <> "" -> c <> "all" ->
  Forall (fun rq => category rq.2 <> c) local ->
  let st1 := fst (populateCategories st) in
  option_map sel_value (category_filter st1) = Some ""
  /\ getFilteredQuotes st1
     = (st1, Ok (map quote_obj (List.filter (fun rq => String.eqb (category rq.2) "") local))).
Proof.
  intros Hs Hq Hl Hne Hna Hall st1. subst st1.
  rewrite (populateCategories_on_quotes st sel local Hs Hq), Hl.
  rewrite Forall_forall in Hall.
  assert (Hc : existsb (String.eqb c)
                 ("all" :: dedup_strings [] (map (fun rq => category rq.2) local)) = false).
  { apply not_true_iff_false. rewrite existsb_eqb_elem, elem_of_cons, dedup_strings_elem.
    intros [-> | [Hin _]]; [contradiction|].
    apply elem_of_map_iff in Hin as [rq [E Hrq]].
    apply (Hall rq Hrq). congruence. }
  apply String.eqb_neq in Hne. cbn [fst]. rewrite Hne, Hc.
  split; [reflexivity|].
  erewrite getFilteredQuotes_on_quotes; [| reflexivity | exact Hq]. reflexivity.
Qed.

(** X12: filterQuotes stores the select's value as the last selected
    category, whatever it is, and keeps the store and the select. On a
    store of quote records, a later rebuild of the dropdown keeps the store;
    it selects "all" when the stored value is [""], and selects the stored
    value again when it is non-empty and is "all" or the category of some
    record. *)
Theorem filterQuotes_choice_survives_repopulate rf st sel :
  category_filter st = Some sel ->
  let v := sel_value sel in
  let st1 := fst (filterQuotes rf st) in
  last_selected st1 = Some v /\ quotes st1 = quotes st /\ category_filter st1 = Some sel
  /\ (forall local, quotes st = map quote_obj local ->
       let st2 := fst (populateCategories st1) in
       quotes st2 = quotes st
       /\ (v = "" -> option_map sel_value (category_filter st2) = Some "all")
       /\ (v <> "" -> (v = "all" \/ exists rq, rq ∈ local /\ category rq.2 = v) ->
           option_map sel_value (category_filter st2) = Some v)).
Proof.
  intros Hs v st1. subst v st1.
  pose proof (filterQuotes_keeps last_selected rf st sel Hs
                (fun _ _ => eq_refl) (fun _ _ => eq_refl)) as Hl1.
  pose proof (filterQuotes_keeps quotes rf st sel Hs
                (fun _ _ => eq_refl) (fun _ _ => eq_refl)) as Hq1.
  pose proof (filterQuotes_keeps category_filter rf st sel Hs
                (fun _ _ => eq_refl) (fun _ _ => eq_refl)) as Hs1.
  cbn [last_selected quotes category_filter set_last_selected] in Hl1, Hq1, Hs1.
  rewrite Hs in Hs1.
  split; [exact Hl1|]. split; [exact Hq1|]. split; [exact Hs1|].
  intros local Hq st2. subst st2.
  assert (Hq1' : quotes (fst (filterQuotes rf st)) = map quote_obj local) by congruence.
  rewrite (populateCategories_on_quotes _ sel local Hs1 Hq1'), Hl1. cbn [fst].
  split; [cbn [quotes add_event set_filter]; exact Hq1|]. split.
  - intros Hv. rewrite Hv. reflexivity.
  - intros Hne Hin.
    apply String.eqb_neq in Hne. rewrite Hne.
    assert (Hm : existsb (String.eqb (sel_value sel))
                   ("all" :: dedup_strings [] (map (fun rq => category rq.2) local)) = true).
    { apply existsb_eqb_elem. rewrite elem_of_cons, dedup_strings_elem.
      destruct Hin as [Ha | [rq [Hrq Hc]]]; [left; exact Ha|].
      right. split; [|intros Hn; inversion Hn].
      apply elem_of_map_iff. exists rq. auto. }
    rewrite Hm. reflexivity.
Qed.

(** X13: A [null] entry in the store, as an import of a JSON array holding
    [null] leaves it, makes both the dropdown rebuild and every filtering
    other than ["all"] throw a TypeError, with the state unchanged. *)
Theorem null_entry_breaks_categories st sel pre post :
  category_filter st = Some sel -> quotes st = map quote_obj pre ++ JNull :: post ->
  populateCategories st = (st, Exc TypeError)
  /\ (sel_value sel <> "all" -> getFilteredQuotes st = (st, Exc TypeError)).
Proof.
  intros Hs Hq. split.
  - unfold populateCategories. erewrite bind_ok by reflexivity. rewrite Hs.
    do 2 (erewrite bind_ok by reflexivity). rewrite Hq.
    apply bind_exc with (st' := st). apply map_m_category_null.
  - intros Hna. unfold getFilteredQuotes.
    erewrite bind_ok by reflexivity. rewrite Hs.
    erewrite bind_ok by reflexivity. rewrite Hq.
    apply String.eqb_neq in Hna. rewrite Hna. apply filter_quotes_null.
Qed.

(** ** Witnesses of the further properties *)

Lemma addQuote_appends_trimmed_witness :
  new_quote_text st_form = Some " hi " /\ new_quote_category st_form = Some "x"
  /\ utf8_valid " hi " = true /\ utf8_valid "x" = true
  /\ trim " hi " <> "" /\ trim "x" <> ""
  /\ (let q := JObj (next_ref st_form) [("text", JStr (trim " hi ")); ("category", JStr (trim "x"))] in
      let st' := fst (addQuote (fun _ _ => 0) st_form) in
      quotes st' = quotes st_form ++ [q]
      /\ trace st_form ++ [EvSaveQuotes (quotes st_form ++ [q])] `prefix_of` trace st').
Proof.
  assert (H1 : new_quote_text st_form = Some " hi ") by reflexivity.
  assert (H2 : new_quote_category st_form = Some "x") by reflexivity.
  assert (H3 : trim " hi " <> "") by (intros E; vm_compute in E; discriminate E).
  assert (H4 : trim "x" <> "") by (intros E; vm_compute in E; discriminate E).
  assert (V1 : utf8_valid " hi " = true) by (vm_compute; reflexivity).
  assert (V2 : utf8_valid "x" = true) by (vm_compute; reflexivity).
  exact (conj H1 (conj H2 (conj V1 (conj V2 (conj H3 (conj H4
           (addQuote_appends_trimmed (fun _ _ => 0) st_form " hi " "x" H1 H2 V1 V2 H3 H4))))))).
Defined.

Lemma addQuote_blank_rejected_witness :
  new_quote_text st_blank = Some blank_text /\ new_quote_category st_blank = Some "x"
  /\ (trim blank_text = "" \/ trim "x" = "")
  /\ addQuote (fun _ _ => 0) st_blank
     = (add_event st_blank (EvAlert "Please enter both a quote and a category!"), Ok tt).
Proof.
  assert (H1 : new_quote_text st_blank = Some blank_text) by reflexivity.
  assert (H2 : new_quote_category st_blank = Some "x") by reflexivity.
  assert (H3 : trim blank_text = "" \/ trim "x" = "") by (left; vm_compute; reflexivity).
  exact (conj H1 (conj H2 (conj H3
           (addQuote_blank_rejected (fun _ _ => 0) st_blank blank_text "x" H1 H2 H3)))).
Defined.

Lemma fetch_non_array_only_logs_witness :
  (forall r data, Some JNull <> Some (JArr r data))
  /\ fetchServerQuotes (fun _ _ => 0) (Some JNull) st_form
     = (add_event st_form (EvConsoleError "Error fetching server data:"), Ok tt).
Proof.
  assert (H1 : forall r data, Some JNull <> Some (JArr r data)) by (intros r d E; discriminate E).
  exact (conj H1 (fetch_non_array_only_logs (fun _ _ => 0) (Some JNull) st_form H1)).
Defined.

Lemma resolveConflicts_known_texts_noop_witness :
  Forall (fun c => existsb (fun l => String.eqb (quote_key l) (quote_key c)) [qA_X] = true) [qA_Y]
  /\ resolveConflicts (fun _ _ => 0) (map quote_obj [qA_Y]) (set_quotes empty_state (map quote_obj [qA_X]))
     = (set_quotes empty_state (map quote_obj [qA_X]), Ok tt).
Proof.
  assert (H1 : Forall (fun c => existsb (fun l => String.eqb (quote_key l) (quote_key c)) [qA_X] = true)
                 [qA_Y]) by (constructor; [reflexivity | constructor]).
  exact (conj H1 (resolveConflicts_known_texts_noop (fun _ _ => 0) empty_state [qA_X] [qA_Y] H1)).
Defined.

Lemma resolveConflicts_saves_merged_witness :
  (merge_spec quote_key [qA_X] [qB_Z] false).2 = true
  /\ (let merged := map quote_obj (merge_spec quote_key [qA_X] [qB_Z] false).1 in
      let st' := fst (resolveConflicts (fun _ _ => 0) (map quote_obj [qB_Z])
                        (set_quotes empty_state (map quote_obj [qA_X]))) in
      quotes st' = merged
      /\ trace empty_state ++ [EvSaveQuotes merged;
                               EvAlert "New quotes from server have been added and conflicts resolved."]
         `prefix_of` trace st').
Proof.
  assert (H1 : (merge_spec quote_key [qA_X] [qB_Z] false).2 = true) by reflexivity.
  exact (conj H1 (resolveConflicts_saves_merged (fun _ _ => 0) empty_state [qA_X] [qB_Z] H1)).
Defined.

Lemma ScriptJs_showRandomQuote_empty_throws_witness :
  quotes st_form = []
  /\ ScriptJs.showRandomQuote (fun _ _ => 0) st_form
     = (set_draws st_form (S (random_draws st_form)), Exc TypeError).
Proof.
  assert (H1 : quotes st_form = []) by reflexivity.
  exact (conj H1 (ScriptJs_showRandomQuote_empty_throws (fun _ _ => 0) st_form H1)).
Defined.

Lemma ScriptJs_addQuote_appends_and_shows_witness :
  new_quote_text st_form = Some " hi " /\ new_quote_category st_form = Some "x"
  /\ utf8_valid " hi " = true /\ utf8_valid "x" = true
  /\ trim " hi " <> "" /\ trim "x" <> ""
  /\ ScriptJs.addQuote st_form
     = (add_event
          (set_inputs
             (set_quotes (set_next_ref st_form (N.succ (next_ref st_form)))
                (quotes st_form ++ [JObj (next_ref st_form) [("text", JStr (trim " hi "));
                                                             ("category", JStr (trim "x"))]]))
             (Some "") (Some ""))
          (EvDisplay (DispQuote (JStr (trim " hi ")) (JStr (trim "x")))), Ok tt).
Proof.
  assert (H1 : new_quote_text st_form = Some " hi ") by reflexivity.
  assert (H2 : new_quote_category st_form = Some "x") by reflexivity.
  assert (H3 : trim " hi " <> "") by (intros E; vm_compute in E; discriminate E).
  assert (H4 : trim "x" <> "") by (intros E; vm_compute in E; discriminate E).
  assert (V1 : utf8_valid " hi " = true) by (vm_compute; reflexivity).
  assert (V2 : utf8_valid "x" = true) by (vm_compute; reflexivity).
  exact (conj H1 (conj H2 (conj V1 (conj V2 (conj H3 (conj H4
           (ScriptJs_addQuote_appends_and_shows st_form " hi " "x" H1 H2 V1 V2 H3 H4))))))).
Defined.

Lemma getFilteredQuotes_selects_category_witness :
  category_filter st_pick_X = Some (mkSelect ["all"; "X"; "Z"] "X")
  /\ quotes st_pick_X = map quote_obj [qA_X; qB_Z]
  /\ exists sub, getFilteredQuotes st_pick_X = (st_pick_X, Ok (map quote_obj sub))
    /\ sub `sublist_of` [qA_X; qB_Z]
    /\ forall rq, rq ∈ sub <-> rq ∈ [qA_X; qB_Z]
                  /\ (sel_value (mkSelect ["all"; "X"; "Z"] "X") = "all"
                      \/ category rq.2 = sel_value (mkSelect ["all"; "X"; "Z"] "X")).
Proof.
  assert (H1 : category_filter st_pick_X = Some (mkSelect ["all"; "X"; "Z"] "X")) by reflexivity.
  assert (H2 : quotes st_pick_X = map quote_obj [qA_X; qB_Z]) by reflexivity.
  exact (conj H1 (conj H2 (getFilteredQuotes_selects_category st_pick_X _ [qA_X; qB_Z] H1 H2))).
Defined.

Lemma showRandomQuote_displays_drawn_witness :
  (fun _ n => n - 1) (random_draws empty_state) (length [qA_X; qB_Z]) < length [qA_X; qB_Z]
  /\ exists rq, [qA_X; qB_Z] !! (fun _ n => n - 1) (random_draws empty_state) (length [qA_X; qB_Z])
                = Some rq
    /\ showRandomQuote (fun _ n => n - 1) (map quote_obj [qA_X; qB_Z]) empty_state
       = (add_event (add_event (set_draws empty_state (S (random_draws empty_state)))
                      (EvDisplay (DispQuote (JStr (text rq.2)) (JStr (category rq.2)))))
            (EvLastViewed (quote_obj rq)), Ok tt).
Proof.
  assert (H1 : (fun _ n => n - 1) (random_draws empty_state) (length [qA_X; qB_Z])
               < length [qA_X; qB_Z]) by (cbn; lia).
  exact (conj H1 (showRandomQuote_displays_drawn (fun _ n => n - 1) empty_state [qA_X; qB_Z] H1)).
Defined.

Lemma populateCategories_lists_each_category_once_witness :
  category_filter st_pick_X = Some (mkSelect ["all"; "X"; "Z"] "X")
  /\ quotes st_pick_X = map quote_obj [qA_X; qB_Z]
  /\ (let st1 := fst (populateCategories st_pick_X) in
      quotes st1 = quotes st_pick_X
      /\ exists cats sel', category_filter st1 = Some sel'
         /\ sel_options sel' = "all" :: cats
         /\ NoDup cats
         /\ forall c, c ∈ cats <-> exists rq, rq ∈ [qA_X; qB_Z] /\ category rq.2 = c).
Proof.
  assert (H1 : category_filter st_pick_X = Some (mkSelect ["all"; "X"; "Z"] "X")) by reflexivity.
  assert (H2 : quotes st_pick_X = map quote_obj [qA_X; qB_Z]) by reflexivity.
  exact (conj H1 (conj H2
           (populateCategories_lists_each_category_once st_pick_X _ [qA_X; qB_Z] H1 H2))).
Defined.

Lemma populateCategories_stale_choice_selects_nothing_witness :
  category_filter st_stale = Some (mkSelect ["all"; "Q"] "Q")
  /\ quotes st_stale = map quote_obj [qA_X; qA_empty]
  /\ last_selected st_stale = Some "Q" /\ "Q" <> "" /\ "Q" <> "all"
  /\ Forall (fun rq => category rq.2 <> "Q") [qA_X; qA_empty]
  /\ (let st1 := fst (populateCategories st_stale) in
      option_map sel_value (category_filter st1) = Some ""
      /\ getFilteredQuotes st1
         = (st1, Ok (map quote_obj (List.filter (fun rq => String.eqb (category rq.2) "")
                                      [qA_X; qA_empty])))).
Proof.
  assert (H1 : category_filter st_stale = Some (mkSelect ["all"; "Q"] "Q")) by reflexivity.
  assert (H2 : quotes st_stale = map quote_obj [qA_X; qA_empty]) by reflexivity.
  assert (H3 : last_selected st_stale = Some "Q") by reflexivity.
  assert (H4 : "Q" <> "") by (intros E; discriminate E).
  assert (H5 : "Q" <> "all") by (intros E; discriminate E).
  assert (H6 : Forall (fun rq => category rq.2 <> "Q") [qA_X; qA_empty])
    by (repeat constructor; intros E; discriminate E).
  exact (conj H1 (conj H2 (conj H3 (conj H4 (conj H5 (conj H6
           (populateCategories_stale_choice_selects_nothing st_stale _ [qA_X; qA_empty] "Q"
              H1 H2 H3 H4 H5 H6))))))).
Defined.

Lemma filterQuotes_choice_survives_repopulate_witness :
  category_filter st_pick_X = Some (mkSelect ["all"; "X"; "Z"] "X")
  /\ (let st1 := fst (filterQuotes (fun _ _ => 0) st_pick_X) in
      last_selected st1 = Some "X"
      /\ quotes (fst (populateCategories st1)) = quotes st_pick_X
      /\ option_map sel_value (category_filter (fst (populateCategories st1))) = Some "X")
  /\ category_filter st_pick_empty = Some (mkSelect ["all"; "X"] "")
  /\ (let st1 := fst (filterQuotes (fun _ _ => 0) st_pick_empty) in
      last_selected st1 = Some ""
      /\ option_map sel_value (category_filter (fst (populateCategories st1))) = Some "all").
Proof.
  assert (H1 : category_filter st_pick_X = Some (mkSelect ["all"; "X"; "Z"] "X")) by reflexivity.
  assert (H2 : category_filter st_pick_empty = Some (mkSelect ["all"; "X"] "")) by reflexivity.
  destruct (filterQuotes_choice_survives_repopulate (fun _ _ => 0) st_pick_X _ H1)
    as (L1 & _ & _ & P1).
  destruct (P1 [qA_X; qB_Z] eq_refl) as (Q1 & _ & V1).
  destruct (filterQuotes_choice_survives_repopulate (fun _ _ => 0) st_pick_empty _ H2)
    as (L2 & _ & _ & P2).
  destruct (P2 [qA_X] eq_refl) as (_ & E2 & _).
  refine (conj H1 (conj (conj L1 (conj Q1 _)) (conj H2 (conj L2 (E2 eq_refl))))).
  apply V1; [intros E; discriminate E|].
  right. exists qA_X. split; [rewrite elem_of_cons; left; reflexivity | reflexivity].
Defined.

Lemma null_entry_breaks_categories_witness :
  category_filter st_null = Some (mkSelect ["all"; "X"] "X")
  /\ quotes st_null = map quote_obj [qA_X] ++ JNull :: []
  /\ sel_value (mkSelect ["all"; "X"] "X") <> "all"
  /\ populateCategories st_null = (st_null, Exc TypeError)
  /\ getFilteredQuotes st_null = (st_null, Exc TypeError).
Proof.
  assert (H1 : category_filter st_null = Some (mkSelect ["all"; "X"] "X")) by reflexivity.
  assert (H2 : quotes st_null = map quote_obj [qA_X] ++ JNull :: []) by reflexivity.
  assert (H3 : sel_value (mkSelect ["all"; "X"] "X") <> "all") by (intros E; discriminate E).
  destruct (null_entry_breaks_categories st_null _ [qA_X] [] H1 H2) as [P G].
  exact (conj H1 (conj H2 (conj H3 (conj P (G H3))))).
Defined.
